(** * The text-to-speech front end

    A shallow embedding of [services/geminiService.ts]: the base64 decoder
    [decode], the PCM interpreter [decodeAudioData], the WAV encoder
    [createWavBlob], the playback adapter [playAudio] and the synthesis call
    [generateSpeech], together with the part of the JavaScript platform these
    functions rest on (typed arrays, [DataView], [atob], [Blob], the Web Audio
    buffer constructor); and of the component of [App.tsx] that calls them:
    its state, its handlers [handleSpeak], [handleDownload] and
    [handleReset], and the effects that save the text and the voice in
    [localStorage]. *)

From Stdlib Require Import ZArith QArith Qround Lia List Ascii String SpecFloat.
From Stdlib Require Import Strings.Byte.
From stdpp Require Import base list strings gmap.

Open Scope Z_scope.

(** ** The JavaScript platform *)

Module JS.

(** Values a function can throw (or a promise can reject with). *)
Inductive exn :=
| Error (message : string)        (* new Error(message) *)
| RangeError                      (* typed array and DataView range checks *)
| DOMException (name : string)    (* InvalidCharacterError, NotSupportedError, ... *)
| ApiError (status : Z) (message : string).  (* a failure of the remote call *)

(** A computation that returns or throws. *)
Inductive result (A : Type) :=
| Ok (a : A)
| Throw (e : exn).
Arguments Ok {A} a.
Arguments Throw {A} e.

Definition bind {A B} (r : result A) (k : A -> result B) : result B :=
  match r with
  | Ok a => k a
  | Throw e => Throw e
  end.

(** JavaScript truthiness of an optional string: [undefined] and the empty
    string are falsy. *)
Definition truthy (v : option string) : bool :=
  match v with
  | Some s => negb (String.eqb s EmptyString)
  | None => false
  end.

(** *** Bytes *)

Definition byte_to_Z (b : byte) : Z := Z.of_N (Byte.to_N b).

(** ToUint8: the value modulo 2^8, as an element of a [Uint8Array]. *)
Definition ToUint8 (v : Z) : byte :=
  match Byte.of_N (Z.to_N (v mod 256)) with
  | Some b => b
  | None => x00
  end.

Definition ToUint16 (v : Z) : Z := v mod 65536.
Definition ToUint32 (v : Z) : Z := v mod 4294967296.

(** ToInt16: the 16-bit two's complement reading of a value. *)
Definition ToInt16 (v : Z) : Z :=
  let u := v mod 65536 in
  if u <? 32768 then u else u - 65536.

(** [s.charCodeAt(i)]. Past the end of the string JavaScript gives NaN; every
    use below stores the code in a byte, where NaN becomes 0. *)
Definition charCode (c : ascii) : Z := Z.of_N (N_of_ascii c).

Definition charCodeAt (s : string) (i : Z) : Z :=
  match String.get (Z.to_nat i) s with
  | Some c => charCode c
  | None => 0
  end.

(** [for (let i = start; i < start + n; i++) body]: a counted loop whose body
    may throw. *)
Fixpoint for_range {S : Type} (n : nat) (i : Z)
    (body : Z -> S -> result S) (s : S) : result S :=
  match n with
  | O => Ok s
  | Datatypes.S n' => bind (body i s) (for_range n' (i + 1) body)
  end.

(** The number of passes of [for (let i = 0; i < bound; i++)]: the number of
    i = 0, 1, 2, ... below [bound], which need not be whole. *)
Definition count_below (bound : Q) : nat := Z.to_nat (Qceiling bound).

(** The same loop with a body that cannot throw. *)
Fixpoint for_each {S : Type} (n : nat) (i : Z) (body : Z -> S -> S) (s : S) : S :=
  match n with
  | O => s
  | Datatypes.S n' => for_each n' (i + 1) body (body i s)
  end.

(** *** ArrayBuffer, Uint8Array, DataView *)

(** [new ArrayBuffer(n)], [new Uint8Array(n)]: n zero bytes. *)
Definition new_bytes (n : Z) : list byte := replicate (Z.to_nat n) x00.

(** [bytes[i] = v] on a [Uint8Array]: the value is taken modulo 256; an index
    outside the array is ignored. *)
Definition uint8_store (a : list byte) (i : Z) (v : Z) : list byte :=
  if 0 <=? i then <[Z.to_nat i := ToUint8 v]> a else a.

(** A [DataView] over a whole buffer is the buffer's bytes. Its setters throw
    a RangeError when the access does not fit. *)
Definition in_view (view : list byte) (offset size : Z) : bool :=
  (0 <=? offset) && (offset + size <=? Z.of_nat (length view)).

Definition setUint8 (view : list byte) (offset value : Z) : result (list byte) :=
  if in_view view offset 1
  then Ok (<[Z.to_nat offset := ToUint8 value]> view)
  else Throw RangeError.

(** The k-th byte (from the low end) of an unsigned value. *)
Definition raw_byte (u : Z) (k : Z) : byte :=
  ToUint8 (Z.land (Z.shiftr u (8 * k)) 255).

Definition setUint16 (view : list byte) (offset value : Z) (littleEndian : bool)
  : result (list byte) :=
  if in_view view offset 2 then
    let u := ToUint16 value in
    let o := Z.to_nat offset in
    if littleEndian
    then Ok (<[S o := raw_byte u 1]> (<[o := raw_byte u 0]> view))
    else Ok (<[S o := raw_byte u 0]> (<[o := raw_byte u 1]> view))
  else Throw RangeError.

Definition setUint32 (view : list byte) (offset value : Z) (littleEndian : bool)
  : result (list byte) :=
  if in_view view offset 4 then
    let u := ToUint32 value in
    let o := Z.to_nat offset in
    if littleEndian
    then Ok (<[S (S (S o)) := raw_byte u 3]> (<[S (S o) := raw_byte u 2]>
              (<[S o := raw_byte u 1]> (<[o := raw_byte u 0]> view))))
    else Ok (<[S (S (S o)) := raw_byte u 0]> (<[S (S o) := raw_byte u 1]>
              (<[S o := raw_byte u 2]> (<[o := raw_byte u 3]> view))))
  else Throw RangeError.

(** *** Blob *)

(** [new Blob(parts, {type})]: the parts' bytes one after the other. *)
Record Blob := { blob_bytes : list byte; blob_type : string }.

Definition new_Blob (parts : list (list byte)) (type : string) : Blob :=
  {| blob_bytes := concat parts; blob_type := type |}.

(** *** Numbers

    A JavaScript number is an IEEE 754 binary64 value; the elements of a
    [Float32Array] are binary32 values. Sample values are computed with the
    Standard Library's executable specification of IEEE arithmetic. Counts,
    indices and their quotient (the frame count) are kept exact, in [Z] and
    [Q]: for integers below 2^53 the comparisons [i < n / c] and the
    truncation of [n / c] come out the same on the rounded quotient. *)

Definition number := spec_float.

Definition number_of_Z (z : Z) : number := binary_normalize 53 1024 z 0 false.

Definition number_div (x y : number) : number := SFdiv 53 1024 x y.

(** Math.fround: the binary32 value a [Float32Array] keeps of a number. *)
Definition fround (x : number) : spec_float :=
  match x with
  | S754_finite s m e => binary_round 24 128 s m e
  | _ => x
  end.

(** The rational a finite floating-point value stands for. *)
Definition SF2Q (x : spec_float) : option Q :=
  match x with
  | S754_zero _ => Some 0%Q
  | S754_finite s m e => Some (inject_Z (cond_Zopp s (Z.pos m)) * 2 ^ e)%Q
  | _ => None
  end.

(** *** Int16Array *)

(** The elements of an [Int16Array] over a buffer: consecutive byte pairs,
    low byte first (every platform a browser runs on is little-endian). *)
Fixpoint int16_elements (buffer : list byte) : list Z :=
  match buffer with
  | lo :: hi :: rest =>
      ToInt16 (byte_to_Z lo + 256 * byte_to_Z hi) :: int16_elements rest
  | _ => []
  end.

(** [new Int16Array(buffer)]: a RangeError unless the buffer's byte length is
    a multiple of the element size. *)
Definition new_Int16Array (buffer : list byte) : result (list Z) :=
  if Z.of_nat (length buffer) mod 2 =? 0
  then Ok (int16_elements buffer)
  else Throw RangeError.

(** [a[idx]] as a number: [undefined] past the end, which arithmetic turns
    into NaN. *)
Definition int16_get (a : list Z) (idx : Z) : number :=
  if idx <? 0 then S754_nan
  else match a !! Z.to_nat idx with
       | Some v => number_of_Z v
       | None => S754_nan
       end.

(** *** Web Audio: AudioContext and AudioBuffer *)

Inductive AudioContextState := suspended | running | closed.

(** An audio context: its state, and the limits of the implementation on
    the buffers it creates (the standard asks for 32 channels and the rates
    8000 to 96000 at least; channel counts are far below 2^32, where the
    conversion of the argument to an unsigned long leaves them as they
    are). *)
Record AudioContext := {
  state : AudioContextState;
  maxChannels : Z;
  minSampleRate : Z;
  maxSampleRate : Z
}.

(** An audio buffer: one [Float32Array] of samples per channel. *)
Record AudioBuffer := {
  ab_sampleRate : Z;
  ab_length : Z;
  ab_channels : list (list spec_float)
}.

(** Conversion of a non-negative number to WebIDL's [unsigned long]: the
    fraction is dropped and the integer taken modulo 2^32. *)
Definition unsigned_long (q : Q) : Z := Qfloor q mod 4294967296.

(** Whether the implementation supports buffers of this many channels at
    this sample rate. *)
Definition supports (ctx : AudioContext) (numberOfChannels sampleRate : Z) : bool :=
  (1 <=? numberOfChannels) && (numberOfChannels <=? maxChannels ctx) &&
  (minSampleRate ctx <=? sampleRate) && (sampleRate <=? maxSampleRate ctx).

(** Whether [createBuffer] creates a buffer: it does unless an argument is
    zero or outside its nominal range. *)
Definition grants (ctx : AudioContext) (numberOfChannels : Z) (length : Q)
    (sampleRate : Z) : bool :=
  supports ctx numberOfChannels sampleRate && (1 <=? unsigned_long length).

(** [ctx.createBuffer(numberOfChannels, length, sampleRate)]: a silent
    buffer, or a NotSupportedError. *)
Definition createBuffer (ctx : AudioContext) (numberOfChannels : Z) (length : Q)
    (sampleRate : Z) : result AudioBuffer :=
  if grants ctx numberOfChannels length sampleRate then
    let frames := unsigned_long length in
    Ok {| ab_sampleRate := sampleRate;
          ab_length := frames;
          ab_channels :=
            replicate (Z.to_nat numberOfChannels)
                      (replicate (Z.to_nat frames) (S754_zero false)) |}
  else Throw (DOMException "NotSupportedError").

(** [buffer.getChannelData(channel)]: the channel's samples, or an
    IndexSizeError. The array returned is the buffer's own storage. *)
Definition getChannelData (buffer : AudioBuffer) (channel : Z)
  : result (list spec_float) :=
  if channel <? 0 then Throw (DOMException "IndexSizeError")
  else match ab_channels buffer !! Z.to_nat channel with
       | Some samples => Ok samples
       | None => Throw (DOMException "IndexSizeError")
       end.

(** [channelData[i] = x], where [channelData] is the storage of channel
    [channel] of [buffer]: the buffer changes; an index outside the array is
    ignored. *)
Definition channel_store (buffer : AudioBuffer) (channel i : Z) (x : number)
  : AudioBuffer :=
  if (channel <? 0) || (i <? 0) then buffer
  else {| ab_sampleRate := ab_sampleRate buffer;
          ab_length := ab_length buffer;
          ab_channels :=
            alter (fun samples => <[Z.to_nat i := fround x]> samples)
                  (Z.to_nat channel) (ab_channels buffer) |}.

(** *** atob

    The forgiving-base64 decoder of the WHATWG Infra standard, which [atob]
    runs on its argument. A character outside Latin-1 is outside the base64
    alphabet like any other, so strings of 8-bit characters lose nothing. *)

Definition is_ascii_whitespace (c : ascii) : bool :=
  let n := charCode c in
  (n =? 9) || (n =? 10) || (n =? 12) || (n =? 13) || (n =? 32).

(** The value of a character in the base64 alphabet (RFC 4648, table 1). *)
Definition b64_value (c : ascii) : option Z :=
  let n := charCode c in
  if (65 <=? n) && (n <=? 90) then Some (n - 65)
  else if (97 <=? n) && (n <=? 122) then Some (n - 71)
  else if (48 <=? n) && (n <=? 57) then Some (n + 4)
  else if n =? 43 then Some 62
  else if n =? 47 then Some 63
  else None.

(** Step 2: one or two "=" at the end are removed. *)
Definition is_pad (c : ascii) : bool := Ascii.eqb c "=".

Definition drop_last_pad (data : list ascii) : list ascii :=
  match rev data with
  | c :: r => if is_pad c then rev r else data
  | [] => data
  end.

Definition remove_padding (data : list ascii) : list ascii :=
  drop_last_pad (drop_last_pad data).

(** Steps 5 to 10: six bits per character into a buffer, three bytes out
    whenever it holds 24 bits; 12 or 18 bits left at the end give one or two
    bytes. *)
Fixpoint b64_loop (data : list Z) (buffer nbits : Z) : list Z :=
  match data with
  | [] =>
      if nbits =? 12 then [buffer / 16]
      else if nbits =? 18 then [buffer / 4 / 256; (buffer / 4) mod 256]
      else []
  | v :: rest =>
      let buffer := buffer * 64 + v in
      let nbits := nbits + 6 in
      if nbits =? 24
      then buffer / 65536 :: (buffer / 256) mod 256 :: buffer mod 256
             :: b64_loop rest 0 0
      else b64_loop rest buffer nbits
  end.

Definition forgiving_base64_decode (data : list ascii) : option (list Z) :=
  let data := List.filter (fun c => negb (is_ascii_whitespace c)) data in
  let data :=
    if Z.of_nat (length data) mod 4 =? 0 then remove_padding data else data in
  if Z.of_nat (length data) mod 4 =? 1 then None
  else match mapM b64_value data with
       | Some values => Some (b64_loop values 0 0)
       | None => None
       end.

(** The character with a given code (String.fromCharCode, for codes below
    256). *)
Definition char_of_code (v : Z) : ascii := ascii_of_N (Z.to_N v).

Definition atob (data : string) : result string :=
  match forgiving_base64_decode (list_ascii_of_string data) with
  | Some bytes => Ok (string_of_list_ascii (map char_of_code bytes))
  | None => Throw (DOMException "InvalidCharacterError")
  end.

(** *** Effects

    What a function does to the world outside, in order, beside what it
    returns or throws. *)

Inductive Modality := AUDIO | TEXT | IMAGE.

(** The argument of [ai.models.generateContent]. *)
Record GenerateContentParameters := {
  model : string;
  contents : list (list string);        (* [{ parts: [{ text }] }] *)
  responseModalities : list Modality;
  voiceName : string                    (* speechConfig.voiceConfig.prebuiltVoiceConfig *)
}.

Inductive event :=
| NewGoogleGenAI (apiKey : string)
| GenerateContent (request : GenerateContentParameters)
| Resume
| CreateBufferSource
| SetBuffer (buffer : AudioBuffer)
| Connect
| Start.

Definition io (A : Type) : Type := list event * result A.

Definition io_ret {A} (a : A) : io A := ([], Ok a).
Definition io_throw {A} (e : exn) : io A := ([], Throw e).
Definition emit (e : event) : io unit := ([e], Ok tt).
Definition lift {A} (r : result A) : io A := ([], r).

Definition io_bind {A B} (m : io A) (k : A -> io B) : io B :=
  match m with
  | (t1, Ok a) => let (t2, r) := k a in (t1 ++ t2, r)
  | (t1, Throw e) => (t1, Throw e)
  end.

(** The effects of a computation, and what it returns or throws. *)
Definition effects {A} (m : io A) : list event := fst m.
Definition outcome {A} (m : io A) : result A := snd m.

(** *** The response of the Gemini SDK *)

Record InlineData := { data : option string; mimeType : option string }.
Record Part := { part_text : option string; inlineData : option InlineData }.
Record Content := { parts : option (list Part) }.
Record Candidate := { content : option Content }.
Record PromptFeedback := { blockReason : option string }.

(** [text] is the value of the SDK's [response.text] accessor. *)
Record GenerateContentResponse := {
  candidates : option (list Candidate);
  promptFeedback : option PromptFeedback;
  text : option string
}.

End JS.

Import JS.

Notation "'let*' x ':=' c 'in' k" := (bind c (fun x => k))
  (at level 10, x name, c at level 100, k at level 200, only parsing).
Notation "'let!' x ':=' c 'in' k" := (io_bind c (fun x => k))
  (at level 10, x name, c at level 100, k at level 200, only parsing).

(** ** The service: [services/geminiService.ts] *)

Module geminiService.

(** [decode(base64)] *)
Definition decode (base64 : string) : result (list byte) :=
  let* binaryString := atob base64 in
  let len := Z.of_nat (String.length binaryString) in
  let bytes := new_bytes len in
  Ok (for_each (Z.to_nat len) 0
        (fun i bytes => uint8_store bytes i (charCodeAt binaryString i)) bytes).

(** [decodeAudioData(data, ctx, sampleRate, numChannels)]; [data] is a
    [Uint8Array] over a buffer of its own, as [decode] makes it. *)
Definition decodeAudioData (data : list byte) (ctx : AudioContext)
    (sampleRate numChannels : Z) : result AudioBuffer :=
  let* dataInt16 := new_Int16Array data in
  let frameCount := (inject_Z (Z.of_nat (length dataInt16)) / inject_Z numChannels)%Q in
  let* buffer := createBuffer ctx numChannels frameCount sampleRate in
  for_range (Z.to_nat numChannels) 0
    (fun channel buffer =>
       let* channelData := getChannelData buffer channel in
       Ok (for_each (count_below frameCount) 0
             (fun i buffer =>
                channel_store buffer channel i
                  (number_div (int16_get dataInt16 (i * numChannels + channel))
                              (number_of_Z 32768)))
             buffer))
    buffer.

(** [candidates?.[0]?.content?.parts?.[0]?.inlineData?.data] *)
Definition inline_audio (response : GenerateContentResponse) : option string :=
  cs ← candidates response; c ← cs !! 0%nat; ct ← content c;
  ps ← parts ct; p ← ps !! 0%nat; d ← inlineData p; data d.

(** [generateSpeech(text, voiceName)], given the value of
    [process.env.API_KEY] and the remote service's answer to a request. *)
Definition generateSpeech (API_KEY : option string)
    (generateContent : GenerateContentParameters -> result GenerateContentResponse)
    (text voiceName : string) : io string :=
  if negb (truthy API_KEY) then
    io_throw (Error "API_KEY environment variable not set")
  else
    let apiKey := default EmptyString API_KEY in
    let request :=
      {| model := "gemini-2.5-flash-preview-tts";
         contents := [[String.append "Say: " text]];
         responseModalities := [AUDIO];
         voiceName := voiceName |} in
    let! _ := emit (NewGoogleGenAI apiKey) in
    let! _ := emit (GenerateContent request) in
    let! response := lift (generateContent request) in
    let base64Audio := inline_audio response in
    if negb (truthy base64Audio) then
      let errorText := JS.text response in
      if truthy errorText then
        io_throw (Error (String.append "API returned text instead of audio: "
                           (default EmptyString errorText)))
      else
        let reason := pf ← promptFeedback response; blockReason pf in
        if truthy reason then
          io_throw (Error (String.append "Request was blocked: "
                             (default EmptyString reason)))
        else
          io_throw (Error "No audio data received from API. The response was empty or malformed.")
    else io_ret (default EmptyString base64Audio).

(** [playAudio(base64Audio, audioContext)] *)
Definition playAudio (base64Audio : string) (audioContext : option AudioContext)
  : io unit :=
  match audioContext with
  | None => io_throw (Error "AudioContext not initialized.")
  | Some audioContext =>
      let! _ := match state audioContext with
                | suspended => emit Resume
                | _ => io_ret tt
                end in
      let! decodedBytes := lift (decode base64Audio) in
      (* Gemini TTS uses a sample rate of 24000Hz and is mono (1 channel) *)
      let! audioBuffer := lift (decodeAudioData decodedBytes audioContext 24000 1) in
      let! _ := emit CreateBufferSource in
      let! _ := emit (SetBuffer audioBuffer) in
      let! _ := emit Connect in
      emit Start
  end.

(** [writeString(view, offset, string)] *)
Definition writeString (view : list byte) (offset : Z) (string : string)
  : result (list byte) :=
  for_range (String.length string) 0
    (fun i view => setUint8 view (offset + i) (charCodeAt string i)) view.

(** [createWavBlob(pcmData)] *)
Definition createWavBlob (pcmData : list byte) : result Blob :=
  let sampleRate := 24000 in
  let numChannels := 1 in
  let bitsPerSample := 16 in
  let dataSize := Z.of_nat (length pcmData) in
  let view := new_bytes 44 in
  (* RIFF header *)
  let* view := writeString view 0 "RIFF" in
  let* view := setUint32 view 4 (36 + dataSize) true in
  let* view := writeString view 8 "WAVE" in
  (* fmt sub-chunk *)
  let* view := writeString view 12 "fmt " in
  let* view := setUint32 view 16 16 true in
  let* view := setUint16 view 20 1 true in
  let* view := setUint16 view 22 numChannels true in
  let* view := setUint32 view 24 sampleRate true in
  let* view := setUint32 view 28 (sampleRate * numChannels * (bitsPerSample / 8)) true in
  let* view := setUint16 view 32 (numChannels * (bitsPerSample / 8)) true in
  let* view := setUint16 view 34 bitsPerSample true in
  (* data sub-chunk *)
  let* view := writeString view 36 "data" in
  let* view := setUint32 view 40 dataSize true in
  Ok (new_Blob [view; pcmData] "audio/wav").

(** [createWavBlobFromBase64(base64Audio)] *)
Definition createWavBlobFromBase64 (base64Audio : string) : result Blob :=
  let* pcmData := decode base64Audio in
  createWavBlob pcmData.

End geminiService.

Import geminiService.

(** ** The rest of the browser: strings, localStorage, the document *)

Module Web.

(** White space and line terminators, of the characters a string of this
    development holds (codes below 256): TAB, LF, VT, FF, CR, SP and
    NBSP. *)
Definition is_white_space (c : ascii) : bool :=
  let n := charCode c in
  ((9 <=? n) && (n <=? 13)) || (n =? 32) || (n =? 160).

Fixpoint trimStart_chars (l : list ascii) : list ascii :=
  match l with
  | c :: rest => if is_white_space c then trimStart_chars rest else l
  | [] => []
  end.

(** [s.trim()] *)
Definition trim (s : string) : string :=
  string_of_list_ascii
    (rev (trimStart_chars (rev (trimStart_chars (list_ascii_of_string s))))).

(** [localStorage]: a map from keys to values. [getItem] gives [null] for a
    key that is not there. *)
Definition Storage := gmap string string.

Definition getItem (key : string) (storage : Storage) : option string :=
  storage !! key.
Definition setItem (key value : string) (storage : Storage) : Storage :=
  <[key := value]> storage.
Definition removeItem (key : string) (storage : Storage) : Storage :=
  delete key storage.

(** An object URL stands for the blob it was created for. *)
Inductive url := ObjectURL (blob : Blob).

(** What the front end does to the world outside, in order. *)
Inductive effect :=
| Call (e : event)                  (* an effect of the service or the audio context *)
| NewAudioContext (sampleRate : Z)  (* new AudioContext({ sampleRate }) *)
| CreateObjectURL (blob : Blob)
| CreateElement (tagName : string)
| SetHref (href : url)
| SetDownload (fileName : string)
| AppendChild
| Click
| RemoveChild
| RevokeObjectURL (href : url)
| ConsoleError (message : string) (err : exn).

(** [audioContext.resume()], once its promise is fulfilled. *)
Definition resume (ctx : AudioContext) : AudioContext :=
  {| state := running;
     maxChannels := maxChannels ctx;
     minSampleRate := minSampleRate ctx;
     maxSampleRate := maxSampleRate ctx |}.

End Web.

Import Web.

(** ** The voices: [constants.ts] *)

Module constants.

Record VoiceOption := { id : string; name : string }.

Definition VOICES : list VoiceOption :=
  [ {| id := "Kore"; name := "Kore (Female)" |};
    {| id := "Puck"; name := "Puck (Male)" |};
    {| id := "Charon"; name := "Charon (Male)" |};
    {| id := "Fenrir"; name := "Fenrir (Male)" |};
    {| id := "Zephyr"; name := "Zephyr (Female)" |} ].

End constants.

(** ** The component: [App.tsx]

    The component's state, its three handlers and the two effects that save
    the text and the voice. A handler is run from start to end; of an
    asynchronous handler this is the run in which nothing else happens
    between its steps. The notification timer and the clean-up on unmount
    are left out. *)

Module App.

Definition LOCAL_STORAGE_TEXT_KEY : string := "gemini_tts_text".
Definition LOCAL_STORAGE_VOICE_KEY : string := "gemini_tts_voice_id".
Definition DEFAULT_TEXT : string :=
  "Hello! I am a friendly assistant powered by Gemini. You can change my voice from the dropdown below.".

(** [VOICES[0].id] *)
Definition first_voice_id : string :=
  default EmptyString (constants.id <$> constants.VOICES !! 0%nat).

(** The values of the state hooks and of [audioContextRef.current]. *)
Record State := {
  text : string;
  selectedVoice : string;
  isLoading : bool;
  error : option string;
  notification : option string;
  audioData : option string;
  audioContextRef : option AudioContext
}.

Definition setText (v : string) (st : State) : State :=
  {| text := v; selectedVoice := selectedVoice st; isLoading := isLoading st;
     error := error st; notification := notification st;
     audioData := audioData st; audioContextRef := audioContextRef st |}.

Definition setSelectedVoice (v : string) (st : State) : State :=
  {| text := text st; selectedVoice := v; isLoading := isLoading st;
     error := error st; notification := notification st;
     audioData := audioData st; audioContextRef := audioContextRef st |}.

Definition setIsLoading (v : bool) (st : State) : State :=
  {| text := text st; selectedVoice := selectedVoice st; isLoading := v;
     error := error st; notification := notification st;
     audioData := audioData st; audioContextRef := audioContextRef st |}.

Definition setError (v : option string) (st : State) : State :=
  {| text := text st; selectedVoice := selectedVoice st; isLoading := isLoading st;
     error := v; notification := notification st;
     audioData := audioData st; audioContextRef := audioContextRef st |}.

Definition setNotification (v : option string) (st : State) : State :=
  {| text := text st; selectedVoice := selectedVoice st; isLoading := isLoading st;
     error := error st; notification := v;
     audioData := audioData st; audioContextRef := audioContextRef st |}.

Definition setAudioData (v : option string) (st : State) : State :=
  {| text := text st; selectedVoice := selectedVoice st; isLoading := isLoading st;
     error := error st; notification := notification st;
     audioData := v; audioContextRef := audioContextRef st |}.

Definition setAudioContextRef (v : option AudioContext) (st : State) : State :=
  {| text := text st; selectedVoice := selectedVoice st; isLoading := isLoading st;
     error := error st; notification := notification st;
     audioData := audioData st; audioContextRef := v |}.

(** What the component runs in: the key, the remote service, what the
    constructor of the audio context gives, and the message of an exception
    the platform throws. *)
Record Env := {
  API_KEY : option string;
  generateContent : GenerateContentParameters -> result GenerateContentResponse;
  newAudioContext : result AudioContext;
  platform_message : exn -> string
}.

(** [err.message]; every value thrown here is an [Error] object. *)
Definition message (env : Env) (err : exn) : string :=
  match err with
  | Error m => m
  | ApiError _ m => m
  | _ => platform_message env err
  end.

(** The initial values of the state hooks (lines 12 to 18). *)
Definition initialState (storage : Storage) : State :=
  {| text := default DEFAULT_TEXT (getItem LOCAL_STORAGE_TEXT_KEY storage);
     selectedVoice :=
       default first_voice_id (getItem LOCAL_STORAGE_VOICE_KEY storage);
     isLoading := false;
     error := None;
     notification := None;
     audioData := None;
     audioContextRef := None |}.

(** The effect of lines 21 to 24, which depends on [text]. *)
Definition saveText (w : State * Storage) : State * Storage :=
  let (st, storage) := w in
  (setAudioData None st, setItem LOCAL_STORAGE_TEXT_KEY (text st) storage).

(** The effect of lines 26 to 29, which depends on [selectedVoice]. *)
Definition saveVoice (w : State * Storage) : State * Storage :=
  let (st, storage) := w in
  (setAudioData None st, setItem LOCAL_STORAGE_VOICE_KEY (selectedVoice st) storage).

(** After the first render both effects run. *)
Definition mount (storage : Storage) : State * Storage :=
  saveVoice (saveText (initialState storage, storage)).

(** After a later render an effect runs when its dependency is not the value
    of the render before. *)
Definition render (prev : State) (w : State * Storage) : State * Storage :=
  let w := if String.eqb (text prev) (text (fst w)) then w else saveText w in
  if String.eqb (selectedVoice prev) (selectedVoice (fst w)) then w else saveVoice w.

(** [handleSpeak] (lines 46 to 75) *)
Definition handleSpeak (env : Env) (st : State) : list effect * State :=
  if String.eqb (trim (text st)) EmptyString || isLoading st then ([], st)
  else
    let '(created, current) :=
      match audioContextRef st with
      | Some ctx => ([], Ok ctx)
      | None => ([NewAudioContext 24000], newAudioContext env)
      end in
    match current with
    | Throw _ =>
        (created,
         setError (Some "Your browser does not support the Web Audio API.") st)
    | Ok ctx =>
        let '(resumed, ctx) :=
          match state ctx with
          | suspended => ([Call Resume], resume ctx)
          | _ => ([], ctx)
          end in
        let st := setAudioContextRef (Some ctx) st in
        let st := setIsLoading true st in
        let st := setError None st in
        let st := setAudioData None st in
        let st := setNotification None st in
        let '(requested, spoken) :=
          generateSpeech (API_KEY env) (generateContent env)
            (text st) (selectedVoice st) in
        match spoken with
        | Throw err =>
            (created ++ resumed ++ map Call requested,
             setIsLoading false (setError (Some (message env err)) st))
        | Ok base64Audio =>
            let st := setAudioData (Some base64Audio) st in
            let '(played, finished) := playAudio base64Audio (audioContextRef st) in
            let st :=
              match finished with
              | Throw err => setError (Some (message env err)) st
              | Ok _ => st
              end in
            (created ++ resumed ++ map Call requested ++ map Call played,
             setIsLoading false st)
        end
    end.

(** [handleDownload] (lines 77 to 94) *)
Definition handleDownload (st : State) : list effect * State :=
  if negb (truthy (audioData st)) then ([], st)
  else
    match createWavBlobFromBase64 (default EmptyString (audioData st)) with
    | Ok wavBlob =>
        let url := ObjectURL wavBlob in
        ([CreateObjectURL wavBlob; CreateElement "a"; SetHref url;
          SetDownload "gemini-speech.wav"; AppendChild; Click; RemoveChild;
          RevokeObjectURL url],
         setNotification (Some "Download started.") st)
    | Throw err =>
        ([ConsoleError "Download failed:" err],
         setError (Some "Failed to prepare audio for download.") st)
    end.

(** [handleReset] (lines 96 to 104) *)
Definition handleReset (w : State * Storage) : State * Storage :=
  let (st, storage) := w in
  let storage := removeItem LOCAL_STORAGE_TEXT_KEY storage in
  let storage := removeItem LOCAL_STORAGE_VOICE_KEY storage in
  let st := setText DEFAULT_TEXT st in
  let st := setSelectedVoice first_voice_id st in
  let st := setError None st in
  let st := setAudioData None st in
  let st := setNotification (Some "Settings have been reset to default.") st in
  (st, storage).

(** What the user does: the controls of lines 128 to 181 with their
    handlers. A control that is disabled gives no event. *)
Inductive action :=
| ChangeVoice (value : string)
| ChangeText (value : string)
| ClickSpeak
| ClickDownload
| ClickReset.

Definition dispatch (env : Env) (a : action) (w : State * Storage)
  : list effect * (State * Storage) :=
  let (st, storage) := w in
  match a with
  | ChangeVoice value =>
      if isLoading st then ([], w)
      else ([], render st (setSelectedVoice value st, storage))
  | ChangeText value =>
      if isLoading st then ([], w)
      else ([], render st (setText value st, storage))
  | ClickSpeak =>
      if isLoading st || String.eqb (trim (text st)) EmptyString then ([], w)
      else let (done, st') := handleSpeak env st in
           (done, render st (st', storage))
  | ClickDownload =>
      if isLoading st || negb (truthy (audioData st)) then ([], w)
      else let (done, st') := handleDownload st in
           (done, render st (st', storage))
  | ClickReset =>
      if isLoading st then ([], w)
      else ([], render st (handleReset w))
  end.

(** A session: the component is mounted, then the user acts. *)
Fixpoint run (env : Env) (actions : list action) (w : State * Storage)
  : list effect * (State * Storage) :=
  match actions with
  | [] => ([], w)
  | a :: rest =>
      let (done, w) := dispatch env a w in
      let (done', w) := run env rest w in
      (done ++ done', w)
  end.

End App.

(** ** Reference notions the statements are written with *)

(** The bytes of an ASCII literal. *)
Definition ascii_bytes (s : string) : list byte :=
  map byte_of_ascii (list_ascii_of_string s).

(** The n-byte little-endian encoding of a number: its n low-order bytes,
    lowest first. *)
Fixpoint le_bytes (n : nat) (v : Z) : list byte :=
  match n with
  | O => []
  | S n' => ToUint8 v :: le_bytes n' (v / 256)
  end.

(** The number a little-endian byte string stands for. *)
Fixpoint le_value (bs : list byte) : Z :=
  match bs with
  | [] => 0
  | b :: rest => byte_to_Z b + 256 * le_value rest
  end.

(** Bytes [first .. first + len - 1] of a buffer. *)
Definition field (bs : list byte) (first len : nat) : list byte :=
  take len (drop first bs).

(** The canonical 44-byte RIFF/WAVE header of mono 16-bit PCM at 24000 Hz
    with a payload of [dataSize] bytes, field after field. *)
Definition wav_header (dataSize : Z) : list byte :=
  ascii_bytes "RIFF" ++ le_bytes 4 (36 + dataSize) ++ ascii_bytes "WAVE" ++
  ascii_bytes "fmt " ++ le_bytes 4 16 ++ le_bytes 2 1 ++ le_bytes 2 1 ++
  le_bytes 4 24000 ++ le_bytes 4 48000 ++ le_bytes 2 2 ++ le_bytes 2 16 ++
  ascii_bytes "data" ++ le_bytes 4 dataSize.

(** The same layout, read off a buffer by offsets. *)
Definition canonical_header (h : list byte) (dataSize : Z) : Prop :=
  length h = 44%nat /\
  field h 0 4 = ascii_bytes "RIFF" /\
  field h 4 4 = le_bytes 4 (36 + dataSize) /\
  field h 8 4 = ascii_bytes "WAVE" /\
  field h 12 4 = ascii_bytes "fmt " /\
  le_value (field h 16 4) = 16 /\
  le_value (field h 20 2) = 1 /\
  le_value (field h 22 2) = 1 /\
  le_value (field h 24 4) = 24000 /\
  le_value (field h 28 4) = 48000 /\
  le_value (field h 32 2) = 2 /\
  le_value (field h 34 2) = 16 /\
  field h 36 4 = ascii_bytes "data" /\
  field h 40 4 = le_bytes 4 dataSize.

(** *** Base64 (RFC 4648, section 4) *)

Definition b64_alphabet : string :=
  "ABCDEFGHIJKLMNOPQRSTUVWXYZabcdefghijklmnopqrstuvwxyz0123456789+/".

Definition b64_char (v : Z) : ascii :=
  match String.get (Z.to_nat v) b64_alphabet with
  | Some c => c
  | None => "="%char
  end.

(** The encoder: three bytes give four characters; a last group of one or
    two bytes gives two or three characters and "=" up to four. *)
Fixpoint base64Encode_chars (x : list byte) : list ascii :=
  match x with
  | [] => []
  | [a] =>
      let a := byte_to_Z a in
      [b64_char (a / 4); b64_char (a mod 4 * 16); "="%char; "="%char]
  | [a; b] =>
      let a := byte_to_Z a in
      let b := byte_to_Z b in
      [b64_char (a / 4); b64_char (a mod 4 * 16 + b / 16);
       b64_char (b mod 16 * 4); "="%char]
  | a :: b :: c :: rest =>
      let a := byte_to_Z a in
      let b := byte_to_Z b in
      let c := byte_to_Z c in
      b64_char (a / 4) :: b64_char (a mod 4 * 16 + b / 16)
        :: b64_char (b mod 16 * 4 + c / 64) :: b64_char (c mod 64)
        :: base64Encode_chars rest
  end.

Definition base64Encode (x : list byte) : string :=
  string_of_list_ascii (base64Encode_chars x).

Definition is_b64 (c : ascii) : bool :=
  match b64_value c with
  | Some _ => true
  | None => false
  end.

(** [l] is alphabet characters followed by exactly [p] characters "=". *)
Definition has_padding (p : nat) (l : list ascii) : bool :=
  (p <=? length l)%nat &&
  forallb is_b64 (take (length l - p) l) &&
  forallb is_pad (drop (length l - p) l).

(** Valid base64: alphabet characters with no, one or two "=" at the end, a
    multiple of four characters in all; no white space. *)
Definition valid_base64_chars (l : list ascii) : bool :=
  (Z.of_nat (length l) mod 4 =? 0) &&
  (has_padding 0 l || has_padding 1 l || has_padding 2 l).

Definition valid_base64 (s : string) : bool :=
  valid_base64_chars (list_ascii_of_string s).

(** The number of "=" a valid input ends with. *)
Definition padding_count (s : string) : Z :=
  let l := list_ascii_of_string s in
  if has_padding 2 l then 2 else if has_padding 1 l then 1 else 0.

(** The number of bytes a valid input of n characters encodes. *)
Definition decoded_byte_count (s : string) : Z :=
  3 * (Z.of_nat (String.length s) / 4) - padding_count s.

(** What [atob] accepts: once white space is taken out, valid base64, or
    alphabet characters alone whose number is not 1 modulo 4 (base64 with the
    padding left off). *)
Definition lenient_base64 (s : string) : bool :=
  let l := List.filter (fun c => negb (is_ascii_whitespace c))
                       (list_ascii_of_string s) in
  valid_base64_chars l ||
  (forallb is_b64 l && negb (Z.of_nat (length l) mod 4 =? 1)).

(** *** PCM *)

(** The k-th 16-bit sample of a byte buffer: bytes 2k (low) and 2k+1 (high),
    read as a signed number. *)
Definition int16LE (data : list byte) (k : nat) : option Z :=
  match data !! (2 * k)%nat, data !! (2 * k + 1)%nat with
  | Some lo, Some hi => Some (ToInt16 (byte_to_Z lo + 256 * byte_to_Z hi))
  | _, _ => None
  end.

(** The 16-bit sample [v] as the interpreter stores it: [v / 32768.0],
    a binary64 division, kept in a [Float32Array]. *)
Definition pcm_sample (v : Z) : spec_float :=
  fround (number_div (number_of_Z v) (number_of_Z 32768)).

(** [buffer.getChannelData(c)[i]] *)
Definition sample_of (buffer : AudioBuffer) (c i : nat) : option spec_float :=
  samples ← ab_channels buffer !! c; samples !! i.

(** The buffer has [frames] frames in each of [channels] channels. *)
Definition has_shape (buffer : AudioBuffer) (channels frames : Z) : Prop :=
  ab_length buffer = frames /\
  Z.of_nat (length (ab_channels buffer)) = channels /\
  Forall (fun samples => Z.of_nat (length samples) = frames) (ab_channels buffer).

(** *** Synthesis *)

(** The request [generateSpeech] sends for a text and a voice. *)
Definition speech_request (text voiceName : string) : GenerateContentParameters :=
  {| model := "gemini-2.5-flash-preview-tts";
     contents := [[String.append "Say: " text]];
     responseModalities := [AUDIO];
     voiceName := voiceName |}.

(** [hay.includes(needle)] *)
Fixpoint contains (needle hay : string) : bool :=
  String.prefix needle hay ||
  match hay with
  | EmptyString => false
  | String _ rest => contains needle rest
  end.

(** *** Values for the examples *)

(** A browser's audio context. *)
Definition browser_context (st : AudioContextState) : AudioContext :=
  {| state := st; maxChannels := 32;
     minSampleRate := 3000; maxSampleRate := 768000 |}.

(** A response to a blocked prompt, and one that carries text as well. *)
Definition blocked_response : GenerateContentResponse :=
  {| candidates := None;
     promptFeedback := Some {| blockReason := Some "SAFETY"%string |};
     text := None |}.

Definition blocked_response_with_text : GenerateContentResponse :=
  {| candidates :=
       Some [{| content :=
                  Some {| parts :=
                            Some [{| part_text := Some "I cannot say that."%string;
                                     inlineData := None |}] |} |}];
     promptFeedback := Some {| blockReason := Some "SAFETY"%string |};
     text := Some "I cannot say that."%string |}.

(** *** Playback *)

(** What playback does to a context before it decodes: a suspended context
    is resumed. *)
Definition resumed (ctx : AudioContext) : list event :=
  match state ctx with
  | suspended => [Resume]
  | _ => []
  end.

(** ** Auxiliary definitions of the proofs *)

(** Case analysis on every comparison of integers in the goal. *)
Ltac case_compare :=
  repeat match goal with
         | |- context [?a <=? ?b] => destruct (Z.leb_spec a b)
         | |- context [?a =? ?b] => destruct (Z.eqb_spec a b)
         end.

(** The 6-bit groups of a byte string, and the number of "=" its encoding
    ends with. *)
Fixpoint sextets (x : list byte) : list Z :=
  match x with
  | [] => []
  | [a] =>
      let a := byte_to_Z a in [a / 4; a mod 4 * 16]
  | [a; b] =>
      let a := byte_to_Z a in
      let b := byte_to_Z b in
      [a / 4; a mod 4 * 16 + b / 16; b mod 16 * 4]
  | a :: b :: c :: rest =>
      let a := byte_to_Z a in
      let b := byte_to_Z b in
      let c := byte_to_Z c in
      a / 4 :: a mod 4 * 16 + b / 16 :: b mod 16 * 4 + c / 64 :: c mod 64
        :: sextets rest
  end.

Fixpoint pads (x : list byte) : nat :=
  match x with
  | [] => 0
  | [_] => 2
  | [_; _] => 1
  | _ :: _ :: _ :: rest => pads rest
  end.

(** The number of bytes [k] sextets decode to. *)
Definition bytes_of_sextets (k : Z) : Z :=
  3 * (k / 4) + (if k mod 4 =? 2 then 1 else if k mod 4 =? 3 then 2 else 0).

(** The states of the decoding loop: the bits held and their value. *)
Definition loop_state (buffer nbits : Z) : Prop :=
  (nbits = 0 /\ buffer = 0) \/ (nbits = 6 /\ 0 <= buffer < 64) \/
  (nbits = 12 /\ 0 <= buffer < 4096) \/ (nbits = 18 /\ 0 <= buffer < 262144).

(** The sample the interpreter stores for element [idx] of the 16-bit view. *)
Definition sample_at (dataInt16 : list Z) (idx : Z) : spec_float :=
  fround (number_div (int16_get dataInt16 idx) (number_of_Z 32768)).

(** Positions [i0 .. i0 + n - 1] of a list overwritten with [f i], as a loop
    of stores does it. *)
Fixpoint overwrite {A : Type} (n i0 : nat) (f : nat -> A) (l : list A) : list A :=
  match n with
  | O => l
  | S n' => overwrite n' (S i0) f (<[i0 := f i0]> l)
  end.

(** Rows [c0 .. c0 + n - 1] of a list of lists changed by [h c]. *)
Fixpoint alter_range {A : Type} (n c0 : nat) (h : nat -> A -> A) (l : list A)
  : list A :=
  match n with
  | O => l
  | S n' => alter_range n' (S c0) h (alter (h c0) c0 l)
  end.

Definition set_channels (buffer : AudioBuffer) (channels : list (list spec_float))
  : AudioBuffer :=
  {| ab_sampleRate := ab_sampleRate buffer;
     ab_length := ab_length buffer;
     ab_channels := channels |}.

(** The channels of the interpreted buffer, written out. *)
Definition interpret (dataInt16 : list Z) (numChannels : Z) (frames : nat)
  : list (list spec_float) :=
  (fun c => (fun i => sample_at dataInt16 (Z.of_nat i * numChannels + Z.of_nat c))
              <$> seq 0 frames)
    <$> seq 0 (Z.to_nat numChannels).

(** A predicate checked on [i .. i + n - 1]. *)
Fixpoint all_from (P : Z -> bool) (n : nat) (i : Z) : bool :=
  match n with
  | O => true
  | S k => P i && all_from P k (i + 1)
  end.

(** What is checked of each value [v] from 0 to 32768: as a number it has a
    full 53-bit mantissa, and its quotient by 32768, kept as a binary32
    value, stands for the rational v / 32768. The quotient's mantissa and
    exponent are the ones the division algorithm arrives at for a divisor
    that is a power of two (lemma [div_by_32768] below). *)
Definition sample_check (v : Z) : bool :=
  match number_of_Z v with
  | S754_zero _ => v =? 0
  | S754_finite s m e =>
      Pos.eqb (digits2_pos m) 53 && (-52 <=? e) && (e <=? -37) &&
      match SF2Q (fround (binary_round_aux 53 1024 s (Z.pos m~0) (e - 16) loc_Exact)) with
      | Some q => Qeq_bool q (v # 32768)
      | None => false
      end
  | _ => false
  end.

(** *** The component *)

(** The context a run of [handleSpeak] works with: the one kept, or else the
    one the constructor gives. *)
Definition speaking_context (env : App.Env) (st : App.State) : result AudioContext :=
  match App.audioContextRef st with
  | Some ctx => Ok ctx
  | None => App.newAudioContext env
  end.

(** That context once [handleSpeak] has resumed it, when it was suspended. *)
Definition awake (ctx : AudioContext) : AudioContext :=
  match state ctx with
  | suspended => resume ctx
  | _ => ctx
  end.

(** The requests to the remote service, and the constructions of an audio
    context, among the effects. *)
Definition is_request (e : effect) : bool :=
  match e with
  | Call (GenerateContent _) => true
  | _ => false
  end.

Definition is_new_context (e : effect) : bool :=
  match e with
  | NewAudioContext _ => true
  | _ => false
  end.

(** The text and the voice a reload would start with are the ones of the
    state. *)
Definition saved (w : App.State * Storage) : Prop :=
  App.text (App.initialState (snd w)) = App.text (fst w) /\
  App.selectedVoice (App.initialState (snd w)) = App.selectedVoice (fst w).

(** *** Values for the examples *)

(** A response that carries audio. *)
Definition audio_response (base64Audio : string) : GenerateContentResponse :=
  {| candidates :=
       Some [{| content :=
                  Some {| parts :=
                            Some [{| part_text := None;
                                     inlineData :=
                                       Some {| data := Some base64Audio;
                                               mimeType := Some "audio/L16;codec=pcm;rate=24000"%string |} |}] |} |}];
     promptFeedback := None;
     text := None |}.

(** A browser with a key, whose service answers with two samples of audio. *)
Definition demo_env : App.Env :=
  {| App.API_KEY := Some "key"%string;
     App.generateContent := fun _ => Ok (audio_response "AID/fw==");
     App.newAudioContext := Ok (browser_context suspended);
     App.platform_message := fun _ => "The operation failed."%string |}.

(** A state of the component: a text typed in, a voice chosen, audio of an
    earlier run. *)
Definition demo_state : App.State :=
  {| App.text := "Good morning"%string;
     App.selectedVoice := "Puck"%string;
     App.isLoading := false;
     App.error := None;
     App.notification := None;
     App.audioData := Some "AIA="%string;
     App.audioContextRef := None |}.

(** ** Bytes and little-endian encodings *)

Section Bytes.

Lemma byte_to_Z_range (b : byte) : 0 <= byte_to_Z b < 256.
Proof.
  unfold byte_to_Z. pose proof (Byte.to_N_bounded b). lia.
Qed.

Lemma byte_to_Z_ToUint8 (v : Z) : byte_to_Z (ToUint8 v) = v mod 256.
Proof.
  unfold ToUint8, byte_to_Z.
  assert (Hr : 0 <= v mod 256 < 256) by (apply Z.mod_pos_bound; lia).
  destruct (Byte.of_N (Z.to_N (v mod 256))) as [b|] eqn:E.
  - apply Byte.to_of_N in E. rewrite E. lia.
  - apply Byte.of_N_None_iff in E. lia.
Qed.

Lemma ToUint8_byte_to_Z (b : byte) : ToUint8 (byte_to_Z b) = b.
Proof.
  unfold ToUint8, byte_to_Z. pose proof (Byte.to_N_bounded b).
  rewrite Z.mod_small by lia. rewrite N2Z.id, Byte.of_to_N. reflexivity.
Qed.

Lemma ToUint8_mod (a b : Z) : a mod 256 = b mod 256 -> ToUint8 a = ToUint8 b.
Proof. unfold ToUint8. intros ->. reflexivity. Qed.

Lemma byte_to_Z_inj (a b : byte) : byte_to_Z a = byte_to_Z b -> a = b.
Proof.
  intros H. rewrite <- (ToUint8_byte_to_Z a), <- (ToUint8_byte_to_Z b).
  now rewrite H.
Qed.

(** The DataView's byte extraction (shift and mask of the 32-bit value) is
    the arithmetic one (divide and take the remainder). *)
Lemma raw_byte_div (u k : Z) :
  0 <= k -> raw_byte u k = ToUint8 (u / 2 ^ (8 * k)).
Proof.
  intros Hk. unfold raw_byte. apply ToUint8_mod.
  rewrite Z.shiftr_div_pow2 by lia.
  change 255 with (Z.ones 8). rewrite Z.land_ones by lia.
  change (2 ^ 8) with 256. apply Z.mod_mod. lia.
Qed.

Lemma raw_bytes_ToUint32 (v : Z) :
  [raw_byte (ToUint32 v) 0; raw_byte (ToUint32 v) 1;
   raw_byte (ToUint32 v) 2; raw_byte (ToUint32 v) 3] = le_bytes 4 v.
Proof.
  rewrite !raw_byte_div by lia. unfold ToUint32. cbn [le_bytes].
  change (2 ^ (8 * 0)) with 1. change (2 ^ (8 * 1)) with 256.
  change (2 ^ (8 * 2)) with 65536. change (2 ^ (8 * 3)) with 16777216.
  pose proof (Z.mod_pos_bound v 4294967296 ltac:(lia)) as Hb.
  rewrite (ToUint8_mod (v mod 4294967296 / 1) v),
    (ToUint8_mod (v mod 4294967296 / 256) (v / 256)),
    (ToUint8_mod (v mod 4294967296 / 65536) (v / 256 / 256)),
    (ToUint8_mod (v mod 4294967296 / 16777216) (v / 256 / 256 / 256));
    [reflexivity | ..]; Z.to_euclidean_division_equations; lia.
Qed.

Lemma length_le_bytes (n : nat) (v : Z) : length (le_bytes n v) = n.
Proof. revert v. induction n; intros; cbn; [reflexivity | now rewrite IHn]. Qed.

Lemma le_value_le_bytes (n : nat) (v : Z) :
  le_value (le_bytes n v) = v mod 256 ^ Z.of_nat n.
Proof.
  revert v. induction n as [|n IH]; intros v.
  - cbn. now rewrite Z.mod_1_r.
  - cbn [le_bytes le_value]. rewrite byte_to_Z_ToUint8, IH.
    rewrite Nat2Z.inj_succ, Z.pow_succ_r by lia.
    rewrite Z.rem_mul_r by lia. reflexivity.
Qed.

End Bytes.

(** ** The WAV encoder *)

Section WavEncoder.

(** The encoder never throws: every write lands inside the 44-byte view, and
    what it builds is the canonical header followed by the payload. *)
Lemma createWavBlob_eq (pcmData : list byte) :
  createWavBlob pcmData =
  Ok (new_Blob [wav_header (Z.of_nat (length pcmData)); pcmData] "audio/wav").
Proof.
  unfold createWavBlob, wav_header.
  generalize (Z.of_nat (length pcmData)) as dataSize. intros dataSize.
  rewrite <- !raw_bytes_ToUint32.
  cbv beta zeta delta [setUint32 setUint16].
  generalize (raw_byte (ToUint32 (36 + dataSize)) 0)
             (raw_byte (ToUint32 (36 + dataSize)) 1)
             (raw_byte (ToUint32 (36 + dataSize)) 2)
             (raw_byte (ToUint32 (36 + dataSize)) 3)
             (raw_byte (ToUint32 dataSize) 0) (raw_byte (ToUint32 dataSize) 1)
             (raw_byte (ToUint32 dataSize) 2) (raw_byte (ToUint32 dataSize) 3).
  intros r0 r1 r2 r3 d0 d1 d2 d3. vm_compute. reflexivity.
Qed.

Lemma length_wav_header (dataSize : Z) : length (wav_header dataSize) = 44%nat.
Proof. reflexivity. Qed.

Lemma createWavBlob_bytes (pcmData : list byte) (blob : Blob) :
  createWavBlob pcmData = Ok blob ->
  blob_bytes blob = wav_header (Z.of_nat (length pcmData)) ++ pcmData.
Proof.
  rewrite createWavBlob_eq. intros [= <-].
  unfold new_Blob; cbn [blob_bytes concat]. now rewrite app_nil_r.
Qed.

Lemma wav_header_canonical (dataSize : Z) :
  canonical_header (wav_header dataSize) dataSize.
Proof.
  unfold canonical_header. repeat split; reflexivity.
Qed.

(** C1. For every raw PCM byte buffer, the WAV encoder returns a blob whose
    bytes from offset 44 onward are exactly that buffer: 44 + length bytes
    in all, the payload untouched. *)
Theorem createWavBlob_payload (pcmData : list byte) :
  exists blob,
    createWavBlob pcmData = Ok blob /\
    drop 44 (blob_bytes blob) = pcmData /\
    length (blob_bytes blob) = (44 + length pcmData)%nat.
Proof.
  eexists. split; [apply createWavBlob_eq |].
  unfold new_Blob; cbn [blob_bytes concat]. rewrite app_nil_r. split.
  - apply drop_app_length'. reflexivity.
  - rewrite length_app. reflexivity.
Qed.

(** C2. For every input buffer, of length dataSize, the first 44 bytes of
    the encoder's output are the canonical header: "RIFF" at 0-3, the
    little-endian 36 + dataSize at 4-7, "WAVE" at 8-11, "fmt " at 12-15, 16
    at 16-19, 1 at 20-21, the channel count 1 at 22-23, the sample rate 24000
    at 24-27, the byte rate 48000 at 28-31, the block align 2 at 32-33, 16
    bits per sample at 34-35, "data" at 36-39 and the little-endian dataSize
    at 40-43. Read back as numbers, the two size fields are 36 + dataSize and
    dataSize whenever these fit the four bytes; in particular the RIFF size
    is 36 for an empty payload and 46 for a payload of ten bytes. *)
Theorem createWavBlob_header (pcmData : list byte) :
  let dataSize := Z.of_nat (length pcmData) in
  exists blob,
    createWavBlob pcmData = Ok blob /\
    let h := take 44 (blob_bytes blob) in
    canonical_header h dataSize /\
    (36 + dataSize < 2 ^ 32 ->
       le_value (field h 4 4) = 36 + dataSize /\
       le_value (field h 40 4) = dataSize) /\
    (dataSize = 0 -> le_value (field h 4 4) = 36) /\
    (dataSize = 10 ->
       le_value (field h 4 4) = 46 /\ le_value (field h 40 4) = 10).
Proof.
  intros dataSize. eexists. split; [apply createWavBlob_eq |].
  unfold new_Blob; cbn [blob_bytes concat]. rewrite app_nil_r.
  rewrite take_app_length' by reflexivity.
  fold dataSize.
  assert (Hval : 36 + dataSize < 2 ^ 32 ->
            le_value (field (wav_header dataSize) 4 4) = 36 + dataSize /\
            le_value (field (wav_header dataSize) 40 4) = dataSize).
  { intros Hfit.
    change (field (wav_header dataSize) 4 4) with (le_bytes 4 (36 + dataSize)).
    change (field (wav_header dataSize) 40 4) with (le_bytes 4 dataSize).
    rewrite !le_value_le_bytes. change (256 ^ Z.of_nat 4) with (2 ^ 32).
    assert (0 <= dataSize) by (subst dataSize; lia).
    rewrite !Z.mod_small by lia. split; reflexivity. }
  split; [apply wav_header_canonical |]. split; [exact Hval |].
  split; intros Hd; destruct Hval as [H4 H40]; rewrite ?H4, ?H40; lia.
Qed.

End WavEncoder.

(** ** The base64 decoder *)

Section Base64.

Lemma list_ind_by3 {A : Type} (P : list A -> Prop) :
  P [] -> (forall a, P [a]) -> (forall a b, P [a; b]) ->
  (forall a b c l, P l -> P (a :: b :: c :: l)) ->
  forall l, P l.
Proof.
  intros H0 H1 H2 H3. fix IH 1.
  intros [|a [|b [|c l]]]; [exact H0 | apply H1 | apply H2 | apply H3, IH].
Qed.

Lemma b64_value_char (v : Z) : 0 <= v < 64 -> b64_value (b64_char v) = Some v.
Proof.
  intros Hv. rewrite <- (Z2Nat.id v) by lia.
  assert (Hn : (Z.to_nat v < 64)%nat) by lia.
  generalize dependent (Z.to_nat v). clear. intros n Hn.
  do 64 (destruct n as [|n]; [reflexivity |]). lia.
Qed.

Lemma is_b64_not_pad (c : ascii) : is_b64 c = true -> is_pad c = false.
Proof.
  unfold is_pad. destruct (Ascii.eqb_spec c "="%char) as [->|]; [|reflexivity].
  vm_compute. discriminate.
Qed.

Lemma is_pad_not_whitespace (c : ascii) :
  is_pad c = true -> is_ascii_whitespace c = false.
Proof.
  unfold is_pad. destruct (Ascii.eqb_spec c "="%char) as [->|]; [|discriminate].
  reflexivity.
Qed.

Lemma b64_value_code (c : ascii) (v : Z) :
  b64_value c = Some v -> 43 <= charCode c.
Proof.
  unfold b64_value. generalize (charCode c) as n. intros n.
  case_compare; cbn; intros [= <-]; lia.
Qed.

Lemma is_b64_not_whitespace (c : ascii) :
  is_b64 c = true -> is_ascii_whitespace c = false.
Proof.
  unfold is_b64. destruct (b64_value c) as [v|] eqn:Hv; [|discriminate].
  intros _. apply b64_value_code in Hv. unfold is_ascii_whitespace.
  repeat match goal with
         | |- context [?a =? ?b] => destruct (Z.eqb_spec a b); [lia |]
         end.
  reflexivity.
Qed.

Lemma sextets_range (x : list byte) : Forall (fun v => 0 <= v < 64) (sextets x).
Proof.
  induction x as [|a|a b|a b c l IH] using list_ind_by3; cbn [sextets].
  - constructor.
  - pose proof (byte_to_Z_range a).
    repeat constructor; Z.to_euclidean_division_equations; lia.
  - pose proof (byte_to_Z_range a). pose proof (byte_to_Z_range b).
    repeat constructor; Z.to_euclidean_division_equations; lia.
  - pose proof (byte_to_Z_range a). pose proof (byte_to_Z_range b).
    pose proof (byte_to_Z_range c).
    repeat (constructor; [Z.to_euclidean_division_equations; lia |]). exact IH.
Qed.

Lemma base64Encode_chars_eq (x : list byte) :
  base64Encode_chars x = map b64_char (sextets x) ++ replicate (pads x) "="%char.
Proof.
  induction x as [|a|a b|a b c l IH] using list_ind_by3;
    cbn [base64Encode_chars sextets pads map app replicate]; try reflexivity.
  now rewrite IH.
Qed.

Lemma pads_cases (x : list byte) :
  (pads x = 0 /\ length (sextets x) mod 4 = 0)%nat \/
  (pads x = 1 /\ length (sextets x) mod 4 = 3)%nat \/
  (pads x = 2 /\ length (sextets x) mod 4 = 2)%nat.
Proof.
  induction x as [|a|a b|a b c l IH] using list_ind_by3; cbn [pads sextets length];
    auto.
  replace (S (S (S (S (length (sextets l))))))
    with (length (sextets l) + 1 * 4)%nat by lia.
  rewrite Nat.Div0.mod_add. exact IH.
Qed.

(** Decoding the sextets of a byte string gives the bytes back. *)
Lemma b64_loop_sextets (x : list byte) :
  b64_loop (sextets x) 0 0 = map byte_to_Z x.
Proof.
  induction x as [|a|a b|a b c l IH] using list_ind_by3.
  - reflexivity.
  - pose proof (byte_to_Z_range a). cbn. f_equal.
    Z.to_euclidean_division_equations; lia.
  - pose proof (byte_to_Z_range a). pose proof (byte_to_Z_range b).
    cbn. repeat f_equal; Z.to_euclidean_division_equations; lia.
  - pose proof (byte_to_Z_range a). pose proof (byte_to_Z_range b).
    pose proof (byte_to_Z_range c).
    cbn [sextets b64_loop map]. cbn [Z.add Z.eqb Pos.add Pos.succ Pos.eqb].
    rewrite IH. repeat f_equal; Z.to_euclidean_division_equations; lia.
Qed.

(** *** The padding step *)

Lemma drop_last_pad_snoc (l : list ascii) (c : ascii) :
  drop_last_pad (l ++ [c]) = if is_pad c then l else l ++ [c].
Proof.
  unfold drop_last_pad. rewrite rev_unit.
  destruct (is_pad c); [apply rev_involutive | reflexivity].
Qed.

Lemma is_pad_eq (c : ascii) : is_pad c = true -> c = "="%char.
Proof. unfold is_pad. apply Ascii.eqb_eq. Qed.

Lemma drop_last_pad_decomp (d : list ascii) :
  d = drop_last_pad d \/ d = drop_last_pad d ++ ["="%char].
Proof.
  destruct d as [|c r _] using rev_ind; [now left |].
  rewrite drop_last_pad_snoc. destruct (is_pad c) eqn:E; [|now left].
  right. now rewrite (is_pad_eq c E).
Qed.

Lemma drop_last_pad_body (body : list ascii) :
  forallb is_b64 body = true -> drop_last_pad body = body.
Proof.
  destruct body as [|c r _] using rev_ind; [reflexivity |].
  rewrite forallb_app. cbn. rewrite andb_true_r.
  intros [_ Hc]%andb_true_iff. rewrite drop_last_pad_snoc.
  now rewrite (is_b64_not_pad c Hc).
Qed.

Lemma remove_padding_decomp (d : list ascii) :
  exists p, (p <= 2)%nat /\ d = remove_padding d ++ replicate p "="%char.
Proof.
  unfold remove_padding.
  destruct (drop_last_pad_decomp d) as [H1|H1];
    destruct (drop_last_pad_decomp (drop_last_pad d)) as [H2|H2].
  - exists 0%nat. split; [lia |]. cbn. rewrite app_nil_r. congruence.
  - exists 1%nat. split; [lia |]. cbn. congruence.
  - exists 1%nat. split; [lia |]. cbn. congruence.
  - exists 2%nat. split; [lia |]. cbn.
    rewrite H1 at 1. rewrite H2 at 1. now rewrite <- app_assoc.
Qed.

Lemma remove_padding_body (body : list ascii) (p : nat) :
  forallb is_b64 body = true -> (p <= 2)%nat ->
  remove_padding (body ++ replicate p "="%char) = body.
Proof.
  intros Hb Hp. unfold remove_padding.
  destruct p as [|[|[|p]]]; [| | |lia]; cbn [replicate].
  - rewrite app_nil_r. rewrite (drop_last_pad_body body Hb). now apply drop_last_pad_body.
  - rewrite drop_last_pad_snoc. cbn. now apply drop_last_pad_body.
  - change (body ++ ["="%char; "="%char]) with (body ++ ["="%char] ++ ["="%char]).
    rewrite app_assoc, drop_last_pad_snoc. cbn.
    rewrite drop_last_pad_snoc. reflexivity.
Qed.

Lemma forallb_is_pad (l : list ascii) :
  forallb is_pad l = true -> l = replicate (length l) "="%char.
Proof.
  induction l as [|c l IH]; cbn; [reflexivity |].
  intros [Hc Hl]%andb_true_iff. now rewrite (is_pad_eq c Hc), <- IH.
Qed.

Lemma has_padding_spec (p : nat) (l : list ascii) :
  has_padding p l = true <->
  exists body, l = body ++ replicate p "="%char /\ forallb is_b64 body = true.
Proof.
  unfold has_padding. split.
  - intros [[Hp Hb]%andb_true_iff Hd]%andb_true_iff.
    apply Nat.leb_le in Hp. exists (take (length l - p) l). split; [|exact Hb].
    apply forallb_is_pad in Hd. rewrite length_drop in Hd.
    replace (length l - (length l - p))%nat with p in Hd by lia.
    rewrite <- Hd. symmetry. apply take_drop.
  - intros (body & -> & Hb). rewrite length_app, length_replicate.
    replace (length body + p - p)%nat with (length body) by lia.
    rewrite take_app_length, drop_app_length, Hb.
    replace ((p <=? length body + p)%nat) with true by (symmetry; apply Nat.leb_le; lia).
    cbn. clear. induction p; cbn; auto.
Qed.

Lemma mapM_b64_value (l : list ascii) :
  forallb is_b64 l = true <-> exists vs, mapM b64_value l = Some vs.
Proof.
  split.
  - intros H. apply mapM_is_Some. apply Forall_forall. intros c Hc.
    apply list_elem_of_In in Hc.
    pose proof (proj1 (forallb_forall _ _) H c Hc) as Hb. unfold is_b64 in Hb.
    unfold compose. destruct (b64_value c); [eauto | discriminate].
  - intros [vs Hvs]. apply forallb_forall. intros c Hc.
    assert (His : is_Some (mapM b64_value l)) by eauto.
    apply mapM_is_Some in His. rewrite Forall_forall in His.
    apply list_elem_of_In in Hc. specialize (His c Hc). unfold compose in His.
    destruct His as [v Hv].
    unfold is_b64. now rewrite Hv.
Qed.

(** *** What the forgiving decoder accepts *)

Lemma filter_not_whitespace (l : list ascii) :
  forallb (fun c => is_b64 c || is_pad c) l = true ->
  List.filter (fun c => negb (is_ascii_whitespace c)) l = l.
Proof.
  induction l as [|c l IH]; cbn; [reflexivity |].
  intros [Hc Hl]%andb_true_iff.
  assert (is_ascii_whitespace c = false) as ->.
  { apply orb_true_iff in Hc as [Hc|Hc];
      [now apply is_b64_not_whitespace | now apply is_pad_not_whitespace]. }
  cbn. now rewrite IH.
Qed.

Lemma padded_no_whitespace (body : list ascii) (p : nat) :
  forallb is_b64 body = true ->
  forallb (fun c => is_b64 c || is_pad c) (body ++ replicate p "="%char) = true.
Proof.
  intros Hb. rewrite forallb_app. apply andb_true_iff. split.
  - apply forallb_forall. intros c Hc.
    now rewrite (proj1 (forallb_forall _ _) Hb c Hc).
  - clear. induction p; cbn; auto.
Qed.

(** Alphabet characters followed by at most two "=", a multiple of four in
    all, decode to the bytes of the alphabet characters' sextets. *)
Lemma forgiving_padded (body : list ascii) (p : nat) (vs : list Z) :
  forallb is_b64 body = true -> (p <= 2)%nat ->
  Z.of_nat (length body + p) mod 4 = 0 ->
  mapM b64_value body = Some vs ->
  forgiving_base64_decode (body ++ replicate p "="%char) = Some (b64_loop vs 0 0).
Proof.
  intros Hb Hp Hlen Hvs. unfold forgiving_base64_decode.
  rewrite filter_not_whitespace by now apply padded_no_whitespace.
  rewrite length_app, length_replicate.
  destruct (Z.eqb_spec (Z.of_nat (length body + p) mod 4) 0) as [_|]; [|contradiction].
  rewrite remove_padding_body by assumption.
  destruct (Z.eqb_spec (Z.of_nat (length body) mod 4) 1) as [H1|_].
  - exfalso. revert Hlen H1. rewrite Nat2Z.inj_add.
    Z.to_euclidean_division_equations; lia.
  - now rewrite Hvs.
Qed.

(** Alphabet characters alone, not 1 modulo 4 in number, decode too. *)
Lemma forgiving_unpadded (body : list ascii) (vs : list Z) :
  forallb is_b64 body = true ->
  Z.of_nat (length body) mod 4 <> 1 ->
  mapM b64_value body = Some vs ->
  forgiving_base64_decode body = Some (b64_loop vs 0 0).
Proof.
  intros Hb Hlen Hvs. unfold forgiving_base64_decode.
  rewrite filter_not_whitespace.
  2:{ apply forallb_forall. intros c Hc.
      now rewrite (proj1 (forallb_forall _ _) Hb c Hc). }
  assert (Hrp : (if Z.of_nat (length body) mod 4 =? 0
                 then remove_padding body else body) = body).
  { destruct (_ =? 0); [|reflexivity].
    rewrite <- (app_nil_r body) at 1. apply (remove_padding_body body 0); [exact Hb | lia]. }
  rewrite Hrp.
  destruct (Z.eqb_spec (Z.of_nat (length body) mod 4) 1); [contradiction |].
  now rewrite Hvs.
Qed.

(** *** The decoding loop: range and number of the bytes *)

Lemma b64_value_range (c : ascii) (v : Z) :
  b64_value c = Some v -> 0 <= v < 64.
Proof.
  unfold b64_value. generalize (charCode c) as n. intros n.
  case_compare; cbn; intros [= <-]; lia.
Qed.

Lemma mapM_b64_value_range (l : list ascii) (vs : list Z) :
  mapM b64_value l = Some vs -> Forall (fun v => 0 <= v < 64) vs.
Proof.
  intros H. apply mapM_Some in H.
  induction H as [|c v l vs Hc _ IH]; constructor; [|exact IH].
  now apply (b64_value_range c).
Qed.

Lemma b64_loop_range (vs : list Z) (buffer nbits : Z) :
  Forall (fun v => 0 <= v < 64) vs -> loop_state buffer nbits ->
  Forall (fun b => 0 <= b < 256) (b64_loop vs buffer nbits).
Proof.
  intros Hvs. revert buffer nbits.
  induction Hvs as [|v vs Hv _ IH]; intros buffer nbits Hst.
  - destruct Hst as [[-> ->]|[[-> Hb]|[[-> Hb]|[-> Hb]]]]; cbn;
      repeat constructor; Z.to_euclidean_division_equations; lia.
  - destruct Hst as [[-> ->]|[[-> Hb]|[[-> Hb]|[-> Hb]]]];
      cbn [b64_loop]; cbn [Z.add Z.eqb Pos.add Pos.succ Pos.eqb Pos.add_carry].
    + apply IH. right; left. split; [reflexivity | lia].
    + apply IH. right; right; left. split; [reflexivity | lia].
    + apply IH. right; right; right. split; [reflexivity | lia].
    + repeat (constructor; [Z.to_euclidean_division_equations; lia |]).
      apply IH. left. split; reflexivity.
Qed.

Lemma length_b64_loop (vs : list Z) (buffer j : Z) :
  0 <= j < 4 ->
  Z.of_nat (length (b64_loop vs buffer (6 * j))) =
  bytes_of_sextets (j + Z.of_nat (length vs)).
Proof.
  revert buffer j. induction vs as [|v vs IH]; intros buffer j Hj.
  - assert (Hc : j = 0 \/ j = 1 \/ j = 2 \/ j = 3) by lia.
    destruct Hc as [-> | [-> | [-> | ->]]]; reflexivity.
  - cbn [b64_loop length].
    destruct (Z.eqb_spec (6 * j + 6) 24) as [E|E].
    + assert (j = 3) as -> by lia. cbn [length].
      rewrite !Nat2Z.inj_succ. change (b64_loop vs 0 0) with (b64_loop vs 0 (6 * 0)).
      rewrite (IH 0 0) by lia.
      unfold bytes_of_sextets.
      replace (3 + Z.succ (Z.of_nat (length vs)))
        with (0 + Z.of_nat (length vs) + 1 * 4) by lia.
      rewrite Z.div_add, Z.mod_add by lia. lia.
    + replace (6 * j + 6) with (6 * (j + 1)) by lia.
      rewrite IH by lia. f_equal. lia.
Qed.

(** *** Acceptance *)

Lemma filter_idem {A : Type} (f : A -> bool) (l : list A) :
  List.filter f (List.filter f l) = List.filter f l.
Proof.
  induction l as [|a l IH]; cbn; [reflexivity |].
  destruct (f a) eqn:E; cbn; rewrite ?E, IH; reflexivity.
Qed.

Lemma forgiving_filter (l : list ascii) :
  forgiving_base64_decode
    (List.filter (fun c => negb (is_ascii_whitespace c)) l) =
  forgiving_base64_decode l.
Proof. unfold forgiving_base64_decode. now rewrite filter_idem. Qed.

Lemma forgiving_lenient (s : string) (vs : list Z) :
  forgiving_base64_decode (list_ascii_of_string s) = Some vs ->
  lenient_base64 s = true.
Proof.
  unfold forgiving_base64_decode, lenient_base64, valid_base64_chars.
  set (d := List.filter _ (list_ascii_of_string s)).
  destruct (Z.of_nat (length d) mod 4 =? 0) eqn:E0.
  - destruct (_ =? 1); [discriminate |].
    destruct (mapM b64_value (remove_padding d)) as [ws|] eqn:Em; [|discriminate].
    intros _. apply orb_true_iff. left. cbn [andb].
    destruct (remove_padding_decomp d) as (p & Hp & Hd).
    assert (Hhp : has_padding p d = true).
    { apply has_padding_spec. exists (remove_padding d). split; [exact Hd |].
      apply mapM_b64_value. eauto. }
    destruct p as [|[|[|p]]]; [| | |lia]; rewrite Hhp;
      rewrite ?orb_true_r; reflexivity.
  - destruct (Z.of_nat (length d) mod 4 =? 1) eqn:E1; [discriminate |].
    destruct (mapM b64_value d) as [ws|] eqn:Em; [|discriminate].
    intros _. cbn [andb orb negb].
    rewrite (proj2 (mapM_b64_value d)) by eauto. reflexivity.
Qed.

Lemma lenient_forgiving (s : string) :
  lenient_base64 s = true ->
  exists vs, forgiving_base64_decode (list_ascii_of_string s) = Some vs /\
             Forall (fun b => 0 <= b < 256) vs.
Proof.
  unfold lenient_base64, valid_base64_chars.
  rewrite <- forgiving_filter.
  set (d := List.filter _ (list_ascii_of_string s)).
  assert (Hout : forall body vs,
             mapM b64_value body = Some vs ->
             Forall (fun b => 0 <= b < 256) (b64_loop vs 0 0)).
  { intros body vs Hvs. apply b64_loop_range;
      [now apply (mapM_b64_value_range body) | left; auto]. }
  intros [[H0 Hp]%andb_true_iff | [Hb H1]%andb_true_iff]%orb_true_iff.
  - apply Z.eqb_eq in H0.
    assert (Hex : exists p, (p <= 2)%nat /\ has_padding p d = true).
    { apply orb_true_iff in Hp as [Hp|Hp];
        [apply orb_true_iff in Hp as [Hp|Hp] |]; eauto. }
    destruct Hex as (p & Hp2 & Hhp).
    apply has_padding_spec in Hhp as (body & Hd & Hbody).
    destruct (proj1 (mapM_b64_value body) Hbody) as [vs Hvs].
    exists (b64_loop vs 0 0). split; [|now apply (Hout body)].
    rewrite Hd. apply forgiving_padded; try assumption.
    rewrite Hd, length_app, length_replicate in H0. exact H0.
  - destruct (proj1 (mapM_b64_value d) Hb) as [vs Hvs].
    exists (b64_loop vs 0 0). split; [|now apply (Hout d)].
    apply forgiving_unpadded; try assumption.
    destruct (Z.eqb_spec (Z.of_nat (length d) mod 4) 1); [discriminate | assumption].
Qed.

End Base64.

Section Decoder.

Lemma get_list_ascii (s : string) (n : nat) :
  String.get n s = list_ascii_of_string s !! n.
Proof.
  revert n. induction s as [|c s IH]; intros [|n]; cbn; auto.
Qed.

Lemma length_list_ascii (s : string) :
  length (list_ascii_of_string s) = String.length s.
Proof. induction s; cbn; auto. Qed.

(** The copying loop of [decode] fills the array from left to right. *)
Lemma decode_loop (s : string) (n : nat) (done : list byte) :
  (length done + n)%nat = String.length s ->
  for_each n (Z.of_nat (length done))
    (fun i bytes => uint8_store bytes i (charCodeAt s i))
    (done ++ replicate n x00) =
  done ++ map (fun c => ToUint8 (charCode c))
              (drop (length done) (list_ascii_of_string s)).
Proof.
  revert done. induction n as [|n IH]; intros done Hlen.
  - cbn. rewrite drop_ge by (rewrite length_list_ascii; lia). reflexivity.
  - cbn [for_each replicate].
    destruct (list_ascii_of_string s !! length done) as [c|] eqn:Hc.
    2:{ apply lookup_ge_None in Hc. rewrite length_list_ascii in Hc. lia. }
    assert (Hstore : uint8_store (done ++ x00 :: replicate n x00)
                       (Z.of_nat (length done)) (charCodeAt s (Z.of_nat (length done)))
                     = (done ++ [ToUint8 (charCode c)]) ++ replicate n x00).
    { unfold uint8_store, charCodeAt.
      destruct (0 <=? Z.of_nat (length done)) eqn:E; [|lia].
      rewrite Nat2Z.id, get_list_ascii, Hc.
      rewrite insert_app_r_alt by lia. rewrite Nat.sub_diag. cbn.
      now rewrite <- app_assoc. }
    rewrite Hstore.
    replace (Z.of_nat (length done) + 1) with
      (Z.of_nat (length (done ++ [ToUint8 (charCode c)])))
      by (rewrite length_app; cbn; lia).
    rewrite IH by (rewrite length_app; cbn; lia).
    rewrite length_app. cbn [length].
    rewrite (drop_S _ c (length done)) by exact Hc.
    cbn [map]. rewrite <- app_assoc. cbn.
    replace (length done + 1)%nat with (S (length done)) by lia. reflexivity.
Qed.

Lemma decode_eq (base64 : string) :
  decode base64 =
  let* binaryString := atob base64 in
  Ok (map (fun c => ToUint8 (charCode c)) (list_ascii_of_string binaryString)).
Proof.
  unfold decode. destruct (atob base64) as [s|e]; cbn [bind]; [|reflexivity].
  f_equal. unfold new_bytes. rewrite Nat2Z.id.
  apply (decode_loop s (String.length s) []). reflexivity.
Qed.
End Decoder.

Section DecoderContract.

Lemma charCode_char_of_code (v : Z) :
  0 <= v < 256 -> charCode (char_of_code v) = v.
Proof.
  intros Hv. unfold charCode, char_of_code.
  rewrite N_ascii_embedding by lia. lia.
Qed.

Lemma decode_of_forgiving (s : string) (vs : list Z) :
  forgiving_base64_decode (list_ascii_of_string s) = Some vs ->
  Forall (fun b => 0 <= b < 256) vs ->
  decode s = Ok (map ToUint8 vs).
Proof.
  intros Hs Hvs. rewrite decode_eq. unfold atob. rewrite Hs. cbn [bind].
  rewrite list_ascii_of_string_of_list_ascii, map_map. f_equal.
  apply map_ext_in. intros v Hv. rewrite Forall_forall in Hvs.
  rewrite charCode_char_of_code; [reflexivity |].
  apply Hvs. now apply list_elem_of_In.
Qed.

Lemma decode_of_failure (s : string) :
  forgiving_base64_decode (list_ascii_of_string s) = None ->
  decode s = Throw (DOMException "InvalidCharacterError").
Proof. intros Hs. rewrite decode_eq. unfold atob. now rewrite Hs. Qed.

End DecoderContract.

Section DecoderTheorems.

Lemma forgiving_base64Encode (x : list byte) :
  forgiving_base64_decode (base64Encode_chars x) = Some (map byte_to_Z x).
Proof.
  rewrite base64Encode_chars_eq, <- b64_loop_sextets.
  assert (Hvs : mapM b64_value (map b64_char (sextets x)) = Some (sextets x)).
  { apply mapM_Some. pose proof (sextets_range x) as Hr.
    induction Hr as [|v vs Hv _ IH]; cbn; constructor; [|exact IH].
    now apply b64_value_char. }
  apply forgiving_padded.
  - apply mapM_b64_value. eauto.
  - destruct (pads_cases x) as [[-> _]|[[-> _]|[-> _]]]; lia.
  - rewrite length_map.
    destruct (pads_cases x) as [[-> H]|[[-> H]|[-> H]]];
      apply (f_equal Z.of_nat) in H; rewrite Nat2Z.inj_mod in H;
      rewrite Nat2Z.inj_add; cbn in H |- *;
      Z.to_euclidean_division_equations; lia.
  - exact Hvs.
Qed.

Lemma padding_count_spec (s : string) :
  valid_base64 s = true ->
  exists p, padding_count s = Z.of_nat p /\ (p <= 2)%nat /\
            has_padding p (list_ascii_of_string s) = true /\
            Z.of_nat (String.length s) mod 4 = 0.
Proof.
  unfold valid_base64, valid_base64_chars, padding_count.
  rewrite length_list_ascii.
  intros [H0%Z.eqb_eq Hp]%andb_true_iff.
  destruct (has_padding 2 _) eqn:E2; [exists 2%nat; auto |].
  destruct (has_padding 1 _) eqn:E1; [exists 1%nat; auto |].
  rewrite !orb_false_r in Hp. exists 0%nat. auto.
Qed.

Lemma decode_encoded (x : list byte) : decode (base64Encode x) = Ok x.
Proof.
  rewrite (decode_of_forgiving (base64Encode x) (map byte_to_Z x)).
  - rewrite map_map. f_equal. rewrite <- (map_id x) at 2.
    apply map_ext. apply ToUint8_byte_to_Z.
  - unfold base64Encode. rewrite list_ascii_of_string_of_list_ascii.
    apply forgiving_base64Encode.
  - apply Forall_forall. intros v [b [<- _]]%list_elem_of_In%in_map_iff.
    apply byte_to_Z_range.
Qed.

Lemma decode_valid (s : string) :
  valid_base64 s = true ->
  exists bytes, decode s = Ok bytes /\
                Z.of_nat (length bytes) = decoded_byte_count s.
Proof.
  intros Hs. unfold decoded_byte_count.
  destruct (padding_count_spec s Hs) as (p & -> & Hp & Hhp & Hlen).
  apply has_padding_spec in Hhp as (body & Hd & Hbody).
  destruct (proj1 (mapM_b64_value body) Hbody) as [vs Hvs].
  assert (Hn : String.length s = (length body + p)%nat).
  { rewrite <- length_list_ascii, Hd, length_app, length_replicate. reflexivity. }
  exists (map ToUint8 (b64_loop vs 0 0)). split.
  - apply decode_of_forgiving.
    + rewrite Hd. apply forgiving_padded; try assumption. now rewrite <- Hn.
    + apply b64_loop_range; [now apply (mapM_b64_value_range body) | left; auto].
  - rewrite length_map. change (b64_loop vs 0 0) with (b64_loop vs 0 (6 * 0)).
    rewrite length_b64_loop by lia.
    rewrite <- (length_mapM _ _ _ Hvs). rewrite Hn in Hlen |- *.
    unfold bytes_of_sextets. rewrite Nat2Z.inj_add in Hlen |- *.
    destruct p as [|[|[|p]]]; [| | |lia];
      case_compare; Z.to_euclidean_division_equations; lia.
Qed.

(** C6. Decoding the base64 encoding of any byte sequence gives the sequence
    back, and on every valid base64 input the decoder returns a buffer of as
    many bytes as the input encodes: three for every four characters, less
    one for each "=" at the end. *)
Theorem decode_base64Encode :
  (forall x : list byte, decode (base64Encode x) = Ok x) /\
  (forall s : string, valid_base64 s = true ->
     exists bytes, decode s = Ok bytes /\
                   Z.of_nat (length bytes) = decoded_byte_count s).
Proof. split; [exact decode_encoded | exact decode_valid]. Qed.

Lemma decode_base64Encode_witness :
  exists bytes, decode "QUJDRA==" = Ok bytes /\
                Z.of_nat (length bytes) = decoded_byte_count "QUJDRA==".
Proof. apply (proj2 decode_base64Encode "QUJDRA=="%string). reflexivity. Defined.

(** C7 (as the code has it). [decode] fails, with the InvalidCharacterError
    that [atob] throws, exactly on the inputs that [atob] does not accept:
    those that, white space removed, are neither valid base64 nor alphabet
    characters alone whose number is not 1 modulo 4. Input that is not valid
    base64 only for its white space or for padding left off is decoded. *)
Theorem decode_error_iff (s : string) :
  lenient_base64 s = false <->
  decode s = Throw (DOMException "InvalidCharacterError").
Proof.
  split.
  - intros Hs. apply decode_of_failure.
    destruct (forgiving_base64_decode (list_ascii_of_string s)) as [vs|] eqn:E;
      [|reflexivity].
    apply forgiving_lenient in E. congruence.
  - intros Hd. destruct (lenient_base64 s) eqn:E; [|reflexivity].
    destruct (lenient_forgiving s E) as (vs & Hvs & Hr).
    rewrite (decode_of_forgiving s vs Hvs Hr) in Hd. discriminate.
Qed.

Lemma decode_error_iff_witness :
  decode "QUJD*A==" = Throw (DOMException "InvalidCharacterError").
Proof. apply (proj1 (decode_error_iff "QUJD*A=="%string)). reflexivity. Defined.

(** C7 as stated fails: input with padding left off, or with white space in
    it, is not valid base64 and is decoded all the same. *)
Lemma decode_accepts_invalid :
  valid_base64 "QQ" = false /\ decode "QQ" = Ok ["A"%byte] /\
  valid_base64 " QQ==" = false /\ decode " QQ==" = Ok ["A"%byte].
Proof. repeat split; reflexivity. Qed.

End DecoderTheorems.

(** ** More on the decoder *)

Section DecoderMore.

Lemma lookup_char_codes (l : list ascii) (i : nat) :
  byte_to_Z <$> (map (fun c => ToUint8 (charCode c)) l !! i) = charCode <$> l !! i.
Proof.
  rewrite list_lookup_fmap. destruct (l !! i) as [c|]; cbn; [|reflexivity].
  f_equal. rewrite byte_to_Z_ToUint8. unfold charCode.
  apply Z.mod_small. pose proof (N_ascii_bounded c). lia.
Qed.

(** The bytes an encoding of [x] decodes to, padded or not. *)
Lemma forgiving_unpadded_encoding (x : list byte) :
  forgiving_base64_decode (remove_padding (base64Encode_chars x)) =
  Some (map byte_to_Z x).
Proof.
  rewrite base64Encode_chars_eq.
  assert (Hvs : mapM b64_value (map b64_char (sextets x)) = Some (sextets x)).
  { apply mapM_Some. pose proof (sextets_range x) as Hr.
    induction Hr as [|v vs Hv _ IH]; cbn; constructor; [|exact IH].
    now apply b64_value_char. }
  assert (Hbody : forallb is_b64 (map b64_char (sextets x)) = true)
    by (apply mapM_b64_value; eauto).
  rewrite remove_padding_body;
    [| exact Hbody | destruct (pads_cases x) as [[-> _]|[[-> _]|[-> _]]]; lia].
  rewrite <- b64_loop_sextets.
  apply forgiving_unpadded; [exact Hbody | | exact Hvs].
  rewrite length_map.
  destruct (pads_cases x) as [[_ H]|[[_ H]|[_ H]]];
    apply (f_equal Z.of_nat) in H; rewrite Nat2Z.inj_mod in H;
    cbn in H; lia.
Qed.

Lemma decode_of_bytes (s : string) (x : list byte) :
  forgiving_base64_decode (list_ascii_of_string s) = Some (map byte_to_Z x) ->
  decode s = Ok x.
Proof.
  intros Hf. rewrite (decode_of_forgiving s _ Hf).
  - rewrite map_map. f_equal. rewrite <- (map_id x) at 2.
    apply map_ext. apply ToUint8_byte_to_Z.
  - apply Forall_forall. intros v [b [<- _]]%list_elem_of_In%in_map_iff.
    apply byte_to_Z_range.
Qed.

(** X1. [decode] fails exactly when [atob] does, with the exception [atob]
    throws; otherwise it returns one byte for each character of the string
    [atob] gives, in order: byte i is the code of character i. *)
Theorem decode_char_codes (base64 : string) :
  match atob base64 with
  | Ok binaryString =>
      exists bytes,
        decode base64 = Ok bytes /\
        length bytes = String.length binaryString /\
        forall i : nat,
          (i < String.length binaryString)%nat ->
          byte_to_Z <$> bytes !! i = Some (charCodeAt binaryString (Z.of_nat i))
  | Throw e => decode base64 = Throw e
  end.
Proof.
  rewrite decode_eq. destruct (atob base64) as [binaryString|e]; cbn [bind];
    [|reflexivity].
  eexists. split; [reflexivity |]. split.
  - now rewrite length_map, length_list_ascii.
  - intros i Hi. rewrite lookup_char_codes. unfold charCodeAt.
    rewrite Nat2Z.id, get_list_ascii.
    destruct (list_ascii_of_string binaryString !! i) as [c|] eqn:E;
      [reflexivity |].
    apply lookup_ge_None in E. rewrite length_list_ascii in E. lia.
Qed.

(** X2. The round trip survives white space and missing padding: a string
    that, once its ASCII white space is taken out, is the base64 encoding of
    [x], or that encoding without its "=" at the end, decodes to [x]. *)
Theorem decode_lenient_encoding (x : list byte) (s : string) :
  let chars := List.filter (fun c => negb (is_ascii_whitespace c))
                           (list_ascii_of_string s) in
  chars = base64Encode_chars x \/ chars = remove_padding (base64Encode_chars x) ->
  decode s = Ok x.
Proof.
  intros chars Hchars. apply decode_of_bytes.
  rewrite <- forgiving_filter. fold chars.
  destruct Hchars as [-> | ->];
    [apply forgiving_base64Encode | apply forgiving_unpadded_encoding].
Qed.

Lemma decode_lenient_encoding_witness :
  decode " QU JD  RA " = Ok ["A"; "B"; "C"; "D"]%byte.
Proof.
  apply (decode_lenient_encoding ["A"; "B"; "C"; "D"]%byte). right. reflexivity.
Defined.

End DecoderMore.

(** ** The PCM interpreter *)

Section Samples.

Lemma all_from_spec (P : Z -> bool) (n : nat) (i : Z) :
  all_from P n i = true ->
  forall z, i <= z < i + Z.of_nat n -> P z = true.
Proof.
  revert i. induction n as [|n IH]; intros i H z Hz; [lia |].
  cbn in H. apply andb_true_iff in H as [Hi Hrest].
  destruct (Z.eq_dec z i) as [->|Hne]; [exact Hi |].
  apply (IH (i + 1) Hrest). lia.
Qed.

(** Every value from 0 to 32768 passes the check. *)
Lemma all_samples_checked : all_from sample_check (Z.to_nat 32769) 0 = true.
Proof. vm_cast_no_check (eq_refl true). Qed.

Lemma div_eucl_div_mod (a b : Z) : Z.div_eucl a b = (a / b, a mod b).
Proof. unfold Z.div, Z.modulo. now destruct (Z.div_eucl a b). Qed.

(** Division of a 53-bit mantissa by 32768 = 2^52 * 2^-37: the quotient is
    exact, one bit longer, at an exponent 16 lower. *)
Lemma div_by_32768 (m : positive) (e : Z) :
  digits2_pos m = 53%positive -> -52 <= e <= -37 ->
  SFdiv_core_binary 53 1024 (Z.pos m) e 4503599627370496 (-37) =
  (Z.pos m~0, e - 16, loc_Exact).
Proof.
  intros Hd He. unfold SFdiv_core_binary, Zdigits2. rewrite Hd.
  change (digits2_pos 4503599627370496) with 53%positive.
  assert (He' : Z.min (fexp 53 1024 (53 + e - (53 + -37))) (e - -37) = e - 16).
  { unfold fexp, emin. lia. }
  rewrite He'. replace (e - -37 - (e - 16)) with 53 by lia.
  rewrite div_eucl_div_mod.
  rewrite Z.shiftl_mul_pow2 by lia.
  replace (Z.pos m * 2 ^ 53) with (Z.pos m~0 * 4503599627370496) by lia.
  rewrite Z.div_mul, Z.mod_mul by lia. reflexivity.
Qed.

Lemma pcm_sample_exact_nonneg (v : Z) :
  0 <= v <= 32768 ->
  exists q, SF2Q (pcm_sample v) = Some q /\ (q == v # 32768)%Q.
Proof.
  intros Hv.
  pose proof (all_from_spec _ _ _ all_samples_checked v) as Hc.
  rewrite Z2Nat.id in Hc by lia. specialize (Hc ltac:(lia)).
  unfold sample_check in Hc. unfold pcm_sample, number_div.
  change (number_of_Z 32768) with (S754_finite false 4503599627370496 (-37)).
  destruct (number_of_Z v) as [s| | |s m e]; try discriminate.
  - apply Z.eqb_eq in Hc. subst v. exists 0%Q. split; reflexivity.
  - apply andb_true_iff in Hc as [[[Hd He1]%andb_true_iff He2]%andb_true_iff Hq].
    apply Pos.eqb_eq in Hd. apply Z.leb_le in He1, He2.
    cbn [SFdiv]. rewrite div_by_32768 by (auto; lia).
    rewrite xorb_false_r.
    destruct (SF2Q _) as [q|]; [|discriminate].
    exists q. split; [reflexivity | now apply Qeq_bool_iff].
Qed.

(** *** Negative values, by symmetry *)

Lemma binary_round_aux_opp (prec emax : Z) (s : bool) (m e : Z) (l : location) :
  binary_round_aux prec emax (negb s) m e l =
  SFopp (binary_round_aux prec emax s m e l).
Proof.
  unfold binary_round_aux.
  destruct (shr_fexp prec emax m e l) as [mrs' e'].
  destruct (shr_fexp prec emax _ e' loc_Exact) as [mrs'' e''].
  destruct (shr_m mrs''); [reflexivity | | reflexivity].
  destruct (Z.leb e'' (Z.sub emax prec)); reflexivity.
Qed.

Lemma binary_round_opp (prec emax : Z) (s : bool) (m : positive) (e : Z) :
  binary_round prec emax (negb s) m e = SFopp (binary_round prec emax s m e).
Proof.
  unfold binary_round. destruct (shl_align m e _) as [mz ez].
  apply binary_round_aux_opp.
Qed.

Lemma fround_opp (x : number) : fround (SFopp x) = SFopp (fround x).
Proof. destruct x; cbn [fround SFopp]; [reflexivity.. |]. apply binary_round_opp. Qed.

Lemma number_div_opp (x : number) (m : positive) (e : Z) :
  number_div (SFopp x) (S754_finite false m e) =
  SFopp (number_div x (S754_finite false m e)).
Proof.
  unfold number_div. destruct x as [s|s| |s mx ex]; cbn [SFdiv SFopp];
    rewrite ?xorb_false_r; try reflexivity.
  destruct (SFdiv_core_binary 53 1024 (Z.pos mx) ex (Z.pos m) e) as [[mz ez] lz].
  apply binary_round_aux_opp.
Qed.

(** The sample of a negative value is the negated sample of its opposite. *)
Lemma pcm_sample_opp (p : positive) :
  pcm_sample (Z.neg p) = SFopp (pcm_sample (Z.pos p)).
Proof.
  unfold pcm_sample.
  change (number_of_Z 32768) with (S754_finite false 4503599627370496 (-37)).
  change (number_of_Z (Z.neg p)) with (binary_round 53 1024 (negb false) p 0).
  change (number_of_Z (Z.pos p)) with (binary_round 53 1024 false p 0).
  now rewrite binary_round_opp, number_div_opp, fround_opp.
Qed.

Lemma SF2Q_opp (x : spec_float) (q : Q) :
  SF2Q x = Some q -> exists q', SF2Q (SFopp x) = Some q' /\ (q' == - q)%Q.
Proof.
  destruct x as [s|s| |s m e]; cbn [SF2Q SFopp]; try discriminate; intros [= <-].
  - exists 0%Q. split; reflexivity.
  - eexists. split; [reflexivity |].
    destruct s; cbn [negb cond_Zopp]; rewrite ?inject_Z_opp; ring.
Qed.

(** The stored sample of any 16-bit value [v] is v / 32768, exactly. *)
Lemma pcm_sample_exact (v : Z) :
  -32768 <= v < 32768 ->
  exists q, SF2Q (pcm_sample v) = Some q /\ (q == v # 32768)%Q.
Proof.
  intros Hv. destruct v as [|p|p].
  - apply pcm_sample_exact_nonneg. lia.
  - apply pcm_sample_exact_nonneg. lia.
  - destruct (pcm_sample_exact_nonneg (Z.pos p) ltac:(lia)) as (q & Hq & Hval).
    destruct (SF2Q_opp _ _ Hq) as (q' & Hq' & Hval').
    exists q'. rewrite pcm_sample_opp. split; [exact Hq' |].
    rewrite Hval', Hval. reflexivity.
Qed.

End Samples.

Section Int16View.

Lemma list_ind_by2 {A : Type} (P : list A -> Prop) :
  P [] -> (forall a, P [a]) -> (forall a b l, P l -> P (a :: b :: l)) ->
  forall l, P l.
Proof.
  intros H0 H1 H2. fix IH 1.
  intros [|a [|b l]]; [exact H0 | apply H1 | apply H2, IH].
Qed.

Lemma ToInt16_range (v : Z) : -32768 <= ToInt16 v < 32768.
Proof.
  unfold ToInt16. pose proof (Z.mod_pos_bound v 65536 ltac:(lia)).
  destruct (Z.ltb_spec (v mod 65536) 32768); lia.
Qed.

Lemma int16_elements_lookup (data : list byte) (k : nat) :
  int16_elements data !! k = int16LE data k.
Proof.
  revert k. induction data as [|a|a b l IH] using list_ind_by2; intros k.
  - reflexivity.
  - unfold int16LE. destruct k as [|k]; cbn; [reflexivity |].
    replace (k + S (k + 0))%nat with (S (k + (k + 0))) by lia. reflexivity.
  - destruct k as [|k]; [reflexivity |].
    cbn [int16_elements]. rewrite lookup_cons. rewrite IH. unfold int16LE.
    replace (2 * S k)%nat with (S (S (2 * k))) by lia.
    replace (S (S (2 * k)) + 1)%nat with (S (S (2 * k + 1))) by lia.
    reflexivity.
Qed.

Lemma length_int16_elements (data : list byte) :
  Z.of_nat (length (int16_elements data)) = Z.of_nat (length data) / 2.
Proof.
  induction data as [|a|a b l IH] using list_ind_by2; [reflexivity.. |].
  cbn [int16_elements length]. rewrite !Nat2Z.inj_succ, IH.
  Z.to_euclidean_division_equations; lia.
Qed.

Lemma int16_elements_range (data : list byte) :
  Forall (fun v => -32768 <= v < 32768) (int16_elements data).
Proof.
  induction data as [|a|a b l IH] using list_ind_by2; cbn [int16_elements];
    constructor; [apply ToInt16_range | exact IH].
Qed.

End Int16View.

Section Loops.

(** The loop bound: the passes are the whole numbers below it. *)
Lemma count_below_spec (bound : Q) (i : nat) :
  (i < count_below bound)%nat <-> (inject_Z (Z.of_nat i) < bound)%Q.
Proof.
  unfold count_below. split.
  - intros Hi.
    assert (Hz : Z.of_nat i <= Qceiling bound - 1) by lia.
    rewrite Zle_Qle in Hz.
    apply Qle_lt_trans with (inject_Z (Qceiling bound - 1)); [exact Hz |].
    apply Qceiling_lt.
  - intros Hi.
    assert (Hq : (inject_Z (Z.of_nat i) < inject_Z (Qceiling bound))%Q).
    { apply Qlt_le_trans with bound; [exact Hi | apply Qle_ceiling]. }
    rewrite <- Zlt_Qlt in Hq. lia.
Qed.

Lemma set_channels_id (b : AudioBuffer) : set_channels b (ab_channels b) = b.
Proof. now destruct b. Qed.

Lemma channel_store_nat (b : AudioBuffer) (ch i : nat) (x : number) :
  channel_store b (Z.of_nat ch) (Z.of_nat i) x =
  set_channels b (alter (fun samples => <[i := fround x]> samples) ch (ab_channels b)).
Proof.
  unfold channel_store.
  destruct (Z.ltb_spec (Z.of_nat ch) 0); [lia |].
  destruct (Z.ltb_spec (Z.of_nat i) 0); [lia |].
  cbn [orb]. now rewrite !Nat2Z.id.
Qed.

(** The inner loop overwrites the samples of one channel, left to right. *)
Lemma inner_loop (n i0 ch : nat) (x : Z -> number) (b : AudioBuffer) :
  for_each n (Z.of_nat i0)
    (fun i buffer => channel_store buffer (Z.of_nat ch) i (x i)) b =
  set_channels b
    (alter (overwrite n i0 (fun i => fround (x (Z.of_nat i)))) ch (ab_channels b)).
Proof.
  revert i0 b. induction n as [|n IH]; intros i0 b; cbn [for_each overwrite].
  - rewrite (list_alter_id (fun l => l)) by reflexivity. now rewrite set_channels_id.
  - replace (Z.of_nat i0 + 1) with (Z.of_nat (S i0)) by lia.
    rewrite IH, channel_store_nat. unfold set_channels; cbn. f_equal.
    now rewrite list_alter_alter_eq.
Qed.

Lemma overwrite_length {A : Type} (n i0 : nat) (f : nat -> A) (l : list A) :
  length (overwrite n i0 f l) = length l.
Proof.
  revert i0 l. induction n as [|n IH]; intros i0 l; cbn; [reflexivity |].
  now rewrite IH, length_insert.
Qed.

Lemma overwrite_lookup {A : Type} (n i0 : nat) (f : nat -> A) (l : list A) (i : nat) :
  overwrite n i0 f l !! i =
  if decide (i0 <= i < i0 + n /\ i < length l)%nat then Some (f i) else l !! i.
Proof.
  revert i0 l. induction n as [|n IH]; intros i0 l; cbn [overwrite].
  - destruct (decide _) as [H|H]; [lia | reflexivity].
  - rewrite IH, length_insert.
    destruct (decide (S i0 <= i < S i0 + n /\ i < length l)%nat) as [H|H].
    + destruct (decide _) as [H'|H']; [reflexivity | lia].
    + destruct (decide (i = i0)) as [->|Hne].
      * destruct (decide (i0 < length l)%nat) as [Hl|Hl].
        -- rewrite list_lookup_insert_eq by exact Hl.
           destruct (decide _) as [H'|H']; [reflexivity | lia].
        -- rewrite list_insert_ge by lia.
           destruct (decide _) as [H'|H']; [lia | reflexivity].
      * rewrite list_lookup_insert_ne by congruence.
        destruct (decide _) as [H'|H']; [lia | reflexivity].
Qed.

Lemma alter_range_length {A : Type} (n c0 : nat) (h : nat -> A -> A) (l : list A) :
  length (alter_range n c0 h l) = length l.
Proof.
  revert c0 l. induction n as [|n IH]; intros c0 l; cbn; [reflexivity |].
  now rewrite IH, length_alter.
Qed.

Lemma alter_range_lookup {A : Type} (n c0 : nat) (h : nat -> A -> A) (l : list A)
    (c : nat) :
  alter_range n c0 h l !! c =
  if decide (c0 <= c < c0 + n)%nat then h c <$> l !! c else l !! c.
Proof.
  revert c0 l. induction n as [|n IH]; intros c0 l; cbn [alter_range].
  - destruct (decide _) as [H|H]; [lia | reflexivity].
  - rewrite IH.
    destruct (decide (S c0 <= c < S c0 + n)%nat) as [H|H].
    + rewrite list_lookup_alter_ne by lia.
      destruct (decide _) as [H'|H']; [reflexivity | lia].
    + destruct (decide (c = c0)) as [->|Hne].
      * rewrite list_lookup_alter_eq.
        destruct (decide _) as [H'|H']; [reflexivity | lia].
      * rewrite list_lookup_alter_ne by congruence.
        destruct (decide _) as [H'|H']; [lia | reflexivity].
Qed.

(** The outer loop does so for each channel in turn; no channel is missing,
    so [getChannelData] does not throw. *)
Lemma outer_loop (n c0 ninner : nat) (x : Z -> Z -> number) (b : AudioBuffer) :
  (c0 + n <= length (ab_channels b))%nat ->
  for_range n (Z.of_nat c0)
    (fun channel buffer =>
       let* channelData := getChannelData buffer channel in
       Ok (for_each ninner 0
             (fun i buffer => channel_store buffer channel i (x i channel))
             buffer)) b =
  Ok (set_channels b
        (alter_range n c0
           (fun c => overwrite ninner 0
                       (fun i => fround (x (Z.of_nat i) (Z.of_nat c))))
           (ab_channels b))).
Proof.
  revert c0 b. induction n as [|n IH]; intros c0 b Hlen; cbn [for_range alter_range].
  - now rewrite set_channels_id.
  - unfold getChannelData at 1.
    destruct (Z.ltb_spec (Z.of_nat c0) 0); [lia |]. rewrite Nat2Z.id.
    destruct (ab_channels b !! c0) as [samples|] eqn:Hc.
    2:{ apply lookup_ge_None in Hc. lia. }
    cbn [bind].
    pose proof (inner_loop ninner 0 c0 (fun i => x i (Z.of_nat c0)) b) as Hin.
    change (Z.of_nat 0) with 0 in Hin. rewrite Hin. clear Hin.
    replace (Z.of_nat c0 + 1) with (Z.of_nat (S c0)) by lia.
    rewrite IH by (cbn; rewrite length_alter; lia).
    reflexivity.
Qed.

End Loops.

Section Interpreter.

Lemma Qfloor_div (n : Z) (p : positive) :
  Qfloor (inject_Z n / inject_Z (Z.pos p)) = n / Z.pos p.
Proof. cbn. now rewrite Z.mul_1_r. Qed.

Lemma Qfloor_le_Qceiling (q : Q) : Qfloor q <= Qceiling q.
Proof.
  rewrite Zle_Qle. apply Qle_trans with q; [apply Qfloor_le | apply Qle_ceiling].
Qed.

Lemma interpret_lookup (dataInt16 : list Z) (nc : Z) (F c i : nat) :
  (c < Z.to_nat nc)%nat -> (i < F)%nat ->
  (interpret dataInt16 nc F !! c) ≫= (fun samples => samples !! i) =
  Some (sample_at dataInt16 (Z.of_nat i * nc + Z.of_nat c)).
Proof.
  intros Hc Hi. unfold interpret.
  rewrite list_lookup_fmap, lookup_seq_lt by exact Hc. cbn.
  rewrite list_lookup_fmap, lookup_seq_lt by exact Hi. reflexivity.
Qed.

(** The filled buffer is the silent one with every sample overwritten. *)
Lemma filled_channels (dataInt16 : list Z) (nc : Z) (F ninner : nat) :
  (F <= ninner)%nat ->
  alter_range (Z.to_nat nc) 0
    (fun c => overwrite ninner 0
       (fun i => fround (number_div
                           (int16_get dataInt16 (Z.of_nat i * nc + Z.of_nat c))
                           (number_of_Z 32768))))
    (replicate (Z.to_nat nc) (replicate F (S754_zero false))) =
  interpret dataInt16 nc F.
Proof.
  intros HF. apply list_eq. intros c. rewrite alter_range_lookup. unfold interpret.
  rewrite list_lookup_fmap.
  destruct (decide (0 <= c < 0 + Z.to_nat nc)%nat) as [Hc|Hc].
  - rewrite lookup_replicate_2, lookup_seq_lt by lia. cbn. f_equal.
    apply list_eq. intros i. rewrite overwrite_lookup, length_replicate.
    rewrite list_lookup_fmap.
    destruct (decide (0 <= i < 0 + ninner /\ i < F)%nat) as [Hi|Hi].
    + rewrite lookup_seq_lt by lia. reflexivity.
    + rewrite (proj1 (lookup_replicate_None _ _ _)) by lia.
      rewrite lookup_seq_ge by lia. reflexivity.
  - rewrite (proj1 (lookup_replicate_None _ _ _)) by lia.
    rewrite lookup_seq_ge by lia. reflexivity.
Qed.

Lemma supports_spec (ctx : AudioContext) (nc sr : Z) :
  supports ctx nc sr = true <->
  1 <= nc <= maxChannels ctx /\ minSampleRate ctx <= sr <= maxSampleRate ctx.
Proof. unfold supports. rewrite !andb_true_iff, !Z.leb_le. lia. Qed.

Lemma grants_spec (ctx : AudioContext) (nc : Z) (len : Q) (sr : Z) :
  grants ctx nc len sr = true <->
  supports ctx nc sr = true /\ 1 <= unsigned_long len.
Proof. unfold grants. now rewrite andb_true_iff, Z.leb_le. Qed.

(** What the interpreter returns whenever the 16-bit view exists and the
    context creates a buffer. *)
Lemma decodeAudioData_eq (data : list byte) (ctx : AudioContext)
    (sampleRate numChannels : Z) :
  let frameCount :=
    (inject_Z (Z.of_nat (length data) / 2) / inject_Z numChannels)%Q in
  Z.of_nat (length data) mod 2 = 0 ->
  grants ctx numChannels frameCount sampleRate = true ->
  decodeAudioData data ctx sampleRate numChannels =
  Ok {| ab_sampleRate := sampleRate;
        ab_length := unsigned_long frameCount;
        ab_channels := interpret (int16_elements data) numChannels
                         (Z.to_nat (unsigned_long frameCount)) |}.
Proof.
  intros frameCount Heven Hgrants.
  unfold decodeAudioData, new_Int16Array. rewrite Heven. cbn [Z.eqb bind].
  rewrite length_int16_elements. fold frameCount.
  unfold createBuffer. rewrite Hgrants. cbn [bind].
  set (b := {| ab_sampleRate := sampleRate |}).
  pose proof (outer_loop (Z.to_nat numChannels) 0
                (count_below frameCount)
                (fun i channel =>
                   number_div (int16_get (int16_elements data)
                                 (i * numChannels + channel))
                              (number_of_Z 32768)) b) as Hloop.
  change (Z.of_nat 0) with 0 in Hloop. cbv beta in Hloop.
  rewrite Hloop by (subst b; cbn; rewrite length_replicate; lia).
  subst b. unfold set_channels; cbn [ab_sampleRate ab_length ab_channels].
  rewrite filled_channels; [reflexivity |].
  assert (Hnc : 1 <= numChannels).
  { apply grants_spec in Hgrants as [Hs _]. apply supports_spec in Hs. lia. }
  assert (0 <= Qfloor frameCount).
  { destruct numChannels as [|p|p]; try lia. unfold frameCount.
    rewrite Qfloor_div. apply Z.div_pos; [apply Z.div_pos; lia | lia]. }
  pose proof (Qfloor_le_Qceiling frameCount).
  unfold unsigned_long, count_below.
  pose proof (Z.mod_le (Qfloor frameCount) 4294967296 ltac:(lia) ltac:(lia)).
  lia.
Qed.

End Interpreter.

Section InterpreterTheorems.

Lemma int16LE_range (data : list byte) (k : nat) (v : Z) :
  int16LE data k = Some v -> -32768 <= v < 32768.
Proof.
  unfold int16LE.
  destruct (data !! (2 * k)%nat), (data !! (2 * k + 1)%nat); intros [= <-].
  apply ToInt16_range.
Qed.

Lemma unsigned_long_frames (n nc : Z) :
  0 <= n -> 1 <= nc ->
  0 <= unsigned_long (inject_Z n / inject_Z nc) <= n / nc.
Proof.
  intros Hn Hnc. destruct nc as [|p|p]; try lia.
  unfold unsigned_long. rewrite Qfloor_div.
  assert (0 <= n / Z.pos p) by (apply Z.div_pos; lia).
  pose proof (Z.mod_pos_bound (n / Z.pos p) 4294967296 ltac:(lia)).
  pose proof (Z.mod_le (n / Z.pos p) 4294967296 ltac:(lia) ltac:(lia)). lia.
Qed.

(** Whenever the interpreter returns, it returns a buffer of the channel
    count asked for, of the frame count the context was asked for (as an
    unsigned long), whose sample i of channel c is the stored quotient of
    16-bit sample i * numChannels + c by 32768. *)
Lemma decodeAudioData_frames (data : list byte) (ctx : AudioContext)
    (sampleRate numChannels : Z) :
  let sampleCount := Z.of_nat (length data) / 2 in
  let frames := unsigned_long (inject_Z sampleCount / inject_Z numChannels) in
  Z.of_nat (length data) mod 2 = 0 ->
  grants ctx numChannels (inject_Z sampleCount / inject_Z numChannels) sampleRate
    = true ->
  exists buffer,
    decodeAudioData data ctx sampleRate numChannels = Ok buffer /\
    has_shape buffer numChannels frames /\
    forall c i : nat,
      Z.of_nat c < numChannels -> Z.of_nat i < frames ->
      exists v, int16LE data (i * Z.to_nat numChannels + c) = Some v /\
                sample_of buffer c i = Some (pcm_sample v).
Proof.
  intros sampleCount frames Heven Hgrants.
  pose proof Hgrants as Hg. apply grants_spec in Hg as [Hs Hf].
  apply supports_spec in Hs as [Hnc _].
  assert (Hcount : 0 <= sampleCount) by (apply Z.div_pos; lia).
  pose proof (unsigned_long_frames sampleCount numChannels Hcount ltac:(lia)) as HF.
  fold frames in HF, Hf.
  eexists. split; [apply decodeAudioData_eq; assumption |]. split.
  - unfold has_shape; cbn [ab_length ab_channels]. fold sampleCount frames.
    split; [reflexivity |]. unfold interpret. split.
    + rewrite length_fmap, length_seq. lia.
    + apply Forall_fmap, Forall_forall. intros c _. cbn.
      rewrite length_fmap, length_seq. lia.
  - intros c i Hc Hi. fold sampleCount frames.
    unfold sample_of; cbn [ab_channels].
    rewrite interpret_lookup by lia.
    assert (Hidx : Z.of_nat i * numChannels + Z.of_nat c < sampleCount).
    { pose proof (Z.mul_div_le sampleCount numChannels ltac:(lia)). nia. }
    unfold sample_at, int16_get.
    destruct (Z.ltb_spec (Z.of_nat i * numChannels + Z.of_nat c) 0); [nia |].
    replace (Z.to_nat (Z.of_nat i * numChannels + Z.of_nat c))
      with (i * Z.to_nat numChannels + c)%nat by nia.
    rewrite int16_elements_lookup.
    destruct (int16LE data (i * Z.to_nat numChannels + c)) as [v|] eqn:Hv.
    + exists v. split; reflexivity.
    + exfalso. rewrite <- int16_elements_lookup in Hv.
      apply lookup_ge_None in Hv.
      pose proof (length_int16_elements data) as Hlen. fold sampleCount in Hlen. nia.
Qed.

Lemma decodeAudioData_Ok_inv (data : list byte) (ctx : AudioContext)
    (sampleRate numChannels : Z) (buffer : AudioBuffer) :
  decodeAudioData data ctx sampleRate numChannels = Ok buffer ->
  Z.of_nat (length data) mod 2 = 0 /\
  grants ctx numChannels
    (inject_Z (Z.of_nat (length data) / 2) / inject_Z numChannels) sampleRate = true.
Proof.
  unfold decodeAudioData, new_Int16Array.
  destruct (Z.eqb_spec (Z.of_nat (length data) mod 2) 0) as [Heven|_];
    [|discriminate].
  cbn [bind]. rewrite length_int16_elements. unfold createBuffer.
  destruct (grants _ _ _ _); [auto | discriminate].
Qed.

Lemma sample_value_range (v : Z) (q : Q) :
  -32768 <= v < 32768 -> (q == v # 32768)%Q ->
  (-1 <= q)%Q /\ (q < 1)%Q /\ ((q == -1)%Q <-> v = -32768).
Proof.
  intros Hv Hq. rewrite Hq. unfold Qle, Qlt, Qeq. cbn. lia.
Qed.

Lemma Qmake_div (v : Z) : (v # 32768 == inject_Z v / 32768)%Q.
Proof. unfold Qeq, Qdiv, Qmult, Qinv. cbn. lia. Qed.

(** C3 (as the code has it). For every non-empty byte buffer whose length is
    a multiple of 2 * numChannels, given to a context that supports that
    many channels at the sample rate, and of fewer than 2^32 frames, the PCM
    interpreter returns a buffer of sampleCount / numChannels frames in each
    of numChannels channels, whose sample i of channel c is the 16-bit
    little-endian sample i * numChannels + c divided by 32768.0, which is
    that quotient exactly. In particular the bytes 00 80 give the single
    sample -1.0, and FF 7F give 32767/32768. *)
Theorem decodeAudioData_well_formed :
  (forall (data : list byte) (ctx : AudioContext) (sampleRate numChannels : Z),
     let sampleCount := Z.of_nat (length data) / 2 in
     let frames := sampleCount / numChannels in
     data <> [] ->
     Z.of_nat (length data) mod (2 * numChannels) = 0 ->
     supports ctx numChannels sampleRate = true ->
     frames < 2 ^ 32 ->
     exists buffer,
       decodeAudioData data ctx sampleRate numChannels = Ok buffer /\
       has_shape buffer numChannels frames /\
       forall c i : nat,
         Z.of_nat c < numChannels -> Z.of_nat i < frames ->
         exists v q,
           int16LE data (i * Z.to_nat numChannels + c) = Some v /\
           sample_of buffer c i = Some (pcm_sample v) /\
           SF2Q (pcm_sample v) = Some q /\ (q == inject_Z v / 32768)%Q) /\
  (forall (ctx : AudioContext) (sampleRate : Z),
     supports ctx 1 sampleRate = true ->
     (exists s q,
        decodeAudioData [x00; x80] ctx sampleRate 1 =
          Ok {| ab_sampleRate := sampleRate; ab_length := 1;
                ab_channels := [[s]] |} /\
        SF2Q s = Some q /\ (q == -1)%Q) /\
     (exists s q,
        decodeAudioData [xff; x7f] ctx sampleRate 1 =
          Ok {| ab_sampleRate := sampleRate; ab_length := 1;
                ab_channels := [[s]] |} /\
        SF2Q s = Some q /\ (q == 32767 # 32768)%Q)).
Proof.
  split.
  - intros data ctx sampleRate numChannels sampleCount frames Hne Hmod Hsup Hlt.
    pose proof (proj1 (supports_spec _ _ _) Hsup) as [Hnc _].
    apply Z.mod_divide in Hmod as [k Hk]; [|lia].
    assert (Hcount : sampleCount = k * numChannels).
    { unfold sampleCount. rewrite Hk.
      replace (k * (2 * numChannels)) with (k * numChannels * 2) by lia.
      apply Z.div_mul. lia. }
    assert (Hframes : frames = k).
    { unfold frames. rewrite Hcount. apply Z.div_mul. lia. }
    assert (Hk1 : 1 <= k).
    { destruct data; [congruence |]. cbn [length] in Hk. nia. }
    assert (Hul : unsigned_long (inject_Z sampleCount / inject_Z numChannels)
                  = frames).
    { destruct numChannels as [|p|p]; try lia. unfold unsigned_long.
      rewrite Qfloor_div. fold frames. apply Z.mod_small. lia. }
    destruct (decodeAudioData_frames data ctx sampleRate numChannels)
      as (buffer & Hbuf & Hshape & Hsamples).
    + rewrite Hk. replace (k * (2 * numChannels)) with (k * numChannels * 2) by lia.
      apply Z.mod_mul. lia.
    + apply grants_spec. fold sampleCount. rewrite Hul. split; [exact Hsup | lia].
    + fold sampleCount in Hshape, Hsamples. rewrite Hul in Hshape, Hsamples.
      exists buffer. split; [exact Hbuf |]. split; [exact Hshape |].
      intros c i Hc Hi. destruct (Hsamples c i Hc Hi) as (v & Hv & Hs).
      destruct (pcm_sample_exact v (int16LE_range _ _ _ Hv)) as (q & Hq & Hval).
      exists v, q. repeat split; try assumption.
      now rewrite Hval, Qmake_div.
  - intros ctx sampleRate Hsup.
    assert (Hg : grants ctx 1 (inject_Z (2 / 2) / inject_Z 1) sampleRate = true).
    { apply grants_spec. split; [exact Hsup |]. vm_compute. discriminate. }
    split.
    + exists (S754_finite true 8388608 (-23)). eexists.
      split; [now rewrite decodeAudioData_eq |].
      split; [reflexivity | vm_compute; reflexivity].
    + exists (S754_finite false 16776704 (-24)). eexists.
      split; [now rewrite decodeAudioData_eq |].
      split; [reflexivity | vm_compute; reflexivity].
Qed.

Lemma decodeAudioData_well_formed_witness :
  exists buffer,
    decodeAudioData [x00; x80; xff; x7f] (browser_context running) 24000 1
      = Ok buffer /\
    has_shape buffer 1 2 /\
    forall c i : nat,
      Z.of_nat c < 1 -> Z.of_nat i < 2 ->
      exists v q,
        int16LE [x00; x80; xff; x7f] (i * 1 + c) = Some v /\
        sample_of buffer c i = Some (pcm_sample v) /\
        SF2Q (pcm_sample v) = Some q /\ (q == inject_Z v / 32768)%Q.
Proof.
  apply (proj1 decodeAudioData_well_formed [x00; x80; xff; x7f]
           (browser_context running) 24000 1);
    [discriminate | reflexivity | reflexivity | reflexivity].
Defined.

(** No context creates a buffer of no frames: the empty byte buffer is
    refused whatever the channel count and the sample rate. *)
Lemma decodeAudioData_nil (ctx : AudioContext) (sampleRate numChannels : Z) :
  decodeAudioData [] ctx sampleRate numChannels =
  Throw (DOMException "NotSupportedError").
Proof.
  assert (Hz : unsigned_long (inject_Z 0 / inject_Z numChannels) = 0).
  { unfold unsigned_long. destruct numChannels; reflexivity. }
  unfold decodeAudioData.
  change (new_Int16Array []) with (Ok (@nil Z)).
  cbn [bind length]. unfold createBuffer, grants.
  change (Z.of_nat 0) with 0. rewrite Hz.
  now rewrite andb_false_r.
Qed.

(** C3 as stated fails on the empty buffer, whose length is a multiple of
    2 * numChannels: the context refuses a buffer of no frames. *)
Lemma decodeAudioData_empty :
  decodeAudioData [] (browser_context running) 24000 1 =
  Throw (DOMException "NotSupportedError").
Proof. reflexivity. Qed.

(** C4 (as the code has it). On a byte buffer of odd length the interpreter
    throws a RangeError: the 16-bit view of such a buffer does not exist. On
    a buffer of even length that is not a multiple of 2 * numChannels, and
    holds one whole frame at least, it does not throw: it returns the whole
    frames, sampleCount / numChannels rounded down, and leaves out the
    samples after them. *)
Theorem decodeAudioData_malformed :
  (forall (data : list byte) (ctx : AudioContext) (sampleRate numChannels : Z),
     Z.of_nat (length data) mod 2 = 1 ->
     decodeAudioData data ctx sampleRate numChannels = Throw RangeError) /\
  (forall (data : list byte) (ctx : AudioContext) (sampleRate numChannels : Z),
     let sampleCount := Z.of_nat (length data) / 2 in
     let frames := sampleCount / numChannels in
     Z.of_nat (length data) mod 2 = 0 ->
     Z.of_nat (length data) mod (2 * numChannels) <> 0 ->
     supports ctx numChannels sampleRate = true ->
     numChannels <= sampleCount ->
     frames < 2 ^ 32 ->
     exists buffer,
       decodeAudioData data ctx sampleRate numChannels = Ok buffer /\
       has_shape buffer numChannels frames /\
       forall c i : nat,
         Z.of_nat c < numChannels -> Z.of_nat i < frames ->
         exists v,
           int16LE data (i * Z.to_nat numChannels + c) = Some v /\
           sample_of buffer c i = Some (pcm_sample v)).
Proof.
  split.
  - intros data ctx sampleRate numChannels Hodd.
    unfold decodeAudioData, new_Int16Array. rewrite Hodd. reflexivity.
  - intros data ctx sampleRate numChannels sampleCount frames Heven _ Hsup Hfull Hlt.
    pose proof (proj1 (supports_spec _ _ _) Hsup) as [Hnc _].
    assert (Hf1 : 1 <= frames).
    { unfold frames. apply Z.div_le_lower_bound; lia. }
    assert (Hul : unsigned_long (inject_Z sampleCount / inject_Z numChannels)
                  = frames).
    { destruct numChannels as [|p|p]; try lia. unfold unsigned_long.
      rewrite Qfloor_div. fold frames. apply Z.mod_small. lia. }
    destruct (decodeAudioData_frames data ctx sampleRate numChannels Heven)
      as (buffer & Hbuf & Hshape & Hsamples).
    + apply grants_spec. fold sampleCount. rewrite Hul. split; [exact Hsup | lia].
    + fold sampleCount in Hshape, Hsamples. rewrite Hul in Hshape, Hsamples.
      exists buffer. auto.
Qed.

Lemma decodeAudioData_malformed_witness :
  exists buffer,
    decodeAudioData [x01; x00; x02; x00; x03; x00] (browser_context running)
      24000 2 = Ok buffer /\
    has_shape buffer 2 1 /\
    forall c i : nat,
      Z.of_nat c < 2 -> Z.of_nat i < 1 ->
      exists v,
        int16LE [x01; x00; x02; x00; x03; x00] (i * 2 + c) = Some v /\
        sample_of buffer c i = Some (pcm_sample v).
Proof.
  apply (proj2 decodeAudioData_malformed [x01; x00; x02; x00; x03; x00]
           (browser_context running) 24000 2);
    [reflexivity | discriminate | reflexivity | discriminate | reflexivity].
Defined.

(** C4 as stated fails: on a buffer of three bytes and one channel the
    interpreter throws, and decodes no frame. *)
Lemma decodeAudioData_three_bytes :
  decodeAudioData [x00; x80; x01] (browser_context running) 24000 1 =
  Throw RangeError.
Proof. reflexivity. Qed.

(** C5. Every sample the interpreter outputs (on well-formed input, and on
    any other input it accepts) is the quotient of the corresponding 16-bit
    sample by 32768: it lies in [-1, 1), and it is -1 exactly when that
    16-bit sample is -32768. *)
Theorem decodeAudioData_sample_range (data : list byte) (ctx : AudioContext)
    (sampleRate numChannels : Z) (buffer : AudioBuffer) :
  Z.of_nat (length data) mod (2 * numChannels) = 0 ->
  decodeAudioData data ctx sampleRate numChannels = Ok buffer ->
  forall (c i : nat) (s : spec_float),
    sample_of buffer c i = Some s ->
    exists v q,
      int16LE data (i * Z.to_nat numChannels + c) = Some v /\
      SF2Q s = Some q /\
      (-1 <= q)%Q /\ (q < 1)%Q /\ ((q == -1)%Q <-> v = -32768).
Proof.
  intros _ Hbuf c i s Hs.
  destruct (decodeAudioData_Ok_inv _ _ _ _ _ Hbuf) as [Heven Hgrants].
  destruct (decodeAudioData_frames data ctx sampleRate numChannels Heven Hgrants)
    as (buffer' & Hbuf' & Hshape & Hsamples).
  rewrite Hbuf in Hbuf'. injection Hbuf' as <-.
  destruct Hshape as (_ & Hchannels & Hrows).
  unfold sample_of in Hs.
  destruct (ab_channels buffer !! c) as [samples|] eqn:Hc; [|discriminate].
  cbn in Hs.
  assert (Hc' : Z.of_nat c < numChannels).
  { apply lookup_lt_Some in Hc. lia. }
  assert (Hi' : Z.of_nat i <
                unsigned_long (inject_Z (Z.of_nat (length data) / 2)
                               / inject_Z numChannels)).
  { rewrite Forall_forall in Hrows.
    rewrite <- (Hrows samples) by (apply list_elem_of_lookup; eauto).
    apply lookup_lt_Some in Hs. lia. }
  destruct (Hsamples c i Hc' Hi') as (v & Hv & Hsv).
  unfold sample_of in Hsv. rewrite Hc in Hsv. cbn in Hsv.
  rewrite Hs in Hsv. injection Hsv as ->.
  pose proof (int16LE_range _ _ _ Hv) as Hr.
  destruct (pcm_sample_exact v Hr) as (q & Hq & Hval).
  exists v, q. split; [exact Hv |]. split; [exact Hq |].
  now apply sample_value_range.
Qed.

Lemma decodeAudioData_sample_range_witness :
  exists v q,
    int16LE [x00; x80; xff; x7f] (0 * Z.to_nat 1 + 0) = Some v /\
    SF2Q (S754_finite true 8388608 (-23)) = Some q /\
    (-1 <= q)%Q /\ (q < 1)%Q /\ ((q == -1)%Q <-> v = -32768).
Proof.
  apply (decodeAudioData_sample_range [x00; x80; xff; x7f]
           (browser_context running) 24000 1
           {| ab_sampleRate := 24000; ab_length := 2;
              ab_channels := [[S754_finite true 8388608 (-23);
                               S754_finite false 16776704 (-24)]] |}
           eq_refl eq_refl 0%nat 0%nat (S754_finite true 8388608 (-23)) eq_refl).
Defined.

End InterpreterTheorems.

(** ** More on the interpreter *)

Section InterpreterMore.

Lemma decodeAudioData_odd (data : list byte) (ctx : AudioContext)
    (sampleRate numChannels : Z) :
  Z.of_nat (length data) mod 2 <> 0 ->
  decodeAudioData data ctx sampleRate numChannels = Throw RangeError.
Proof.
  intros Hodd. unfold decodeAudioData, new_Int16Array.
  destruct (Z.eqb_spec (Z.of_nat (length data) mod 2) 0); [contradiction |].
  reflexivity.
Qed.

Lemma decodeAudioData_refused (data : list byte) (ctx : AudioContext)
    (sampleRate numChannels : Z) :
  Z.of_nat (length data) mod 2 = 0 ->
  grants ctx numChannels
    (inject_Z (Z.of_nat (length data) / 2) / inject_Z numChannels) sampleRate
    = false ->
  decodeAudioData data ctx sampleRate numChannels =
  Throw (DOMException "NotSupportedError").
Proof.
  intros Heven Hg. unfold decodeAudioData, new_Int16Array.
  destruct (Z.eqb_spec (Z.of_nat (length data) mod 2) 0); [|contradiction].
  cbn [bind]. rewrite length_int16_elements. unfold createBuffer.
  now rewrite Hg.
Qed.

(** X3. What [decodeAudioData] does, case by case. On a buffer of odd
    length it throws a RangeError. On a buffer of even length it returns an
    audio buffer exactly when the context supports the channel count and the
    sample rate and the frame count (the whole part of sampleCount /
    numChannels, modulo 2^32) is at least 1, and the buffer then has that
    many frames; otherwise it throws a NotSupportedError. *)
Theorem decodeAudioData_outcome (data : list byte) (ctx : AudioContext)
    (sampleRate numChannels : Z) :
  let sampleCount := Z.of_nat (length data) / 2 in
  let frames := unsigned_long (inject_Z sampleCount / inject_Z numChannels) in
  if negb (Z.of_nat (length data) mod 2 =? 0) then
    decodeAudioData data ctx sampleRate numChannels = Throw RangeError
  else if supports ctx numChannels sampleRate && (1 <=? frames) then
    exists buffer,
      decodeAudioData data ctx sampleRate numChannels = Ok buffer /\
      ab_length buffer = frames
  else
    decodeAudioData data ctx sampleRate numChannels =
    Throw (DOMException "NotSupportedError").
Proof.
  intros sampleCount frames.
  destruct (Z.eqb_spec (Z.of_nat (length data) mod 2) 0) as [Heven|Hodd];
    cbn [negb]; [|now apply decodeAudioData_odd].
  change (supports ctx numChannels sampleRate && (1 <=? frames))
    with (grants ctx numChannels (inject_Z sampleCount / inject_Z numChannels)
            sampleRate).
  destruct (grants ctx numChannels (inject_Z sampleCount / inject_Z numChannels)
              sampleRate) eqn:Hg; [|now apply decodeAudioData_refused].
  eexists. split; [apply decodeAudioData_eq; assumption | reflexivity].
Qed.

(** X4. A buffer of even length that holds less than one whole frame (fewer
    16-bit samples than channels; the empty buffer for one) is refused with a
    NotSupportedError, whatever the context and the sample rate. *)
Theorem decodeAudioData_less_than_a_frame (data : list byte) (ctx : AudioContext)
    (sampleRate numChannels : Z) :
  Z.of_nat (length data) mod 2 = 0 ->
  Z.of_nat (length data) / 2 < numChannels ->
  decodeAudioData data ctx sampleRate numChannels =
  Throw (DOMException "NotSupportedError").
Proof.
  intros Heven Hlt. apply decodeAudioData_refused; [exact Heven |].
  assert (Hz : unsigned_long (inject_Z (Z.of_nat (length data) / 2) /
                              inject_Z numChannels) = 0).
  { assert (0 <= Z.of_nat (length data) / 2) by (apply Z.div_pos; lia).
    pose proof (unsigned_long_frames (Z.of_nat (length data) / 2) numChannels
                  ltac:(lia) ltac:(lia)) as Hr.
    rewrite (Z.div_small (Z.of_nat (length data) / 2) numChannels) in Hr; lia. }
  unfold grants. rewrite Hz. apply andb_false_r.
Qed.

Lemma decodeAudioData_less_than_a_frame_witness :
  decodeAudioData [x00; x80] (browser_context running) 24000 2 =
  Throw (DOMException "NotSupportedError").
Proof.
  apply decodeAudioData_less_than_a_frame; [reflexivity | reflexivity].
Defined.

(** X5. Every buffer [decodeAudioData] returns, from well-formed input or
    not: the context supports its format; it has the sample rate asked for
    and [numChannels] channels of as many samples as it has frames; it has at
    least one frame and no more than sampleCount / numChannels; and sample i
    of channel c is the 16-bit sample i * numChannels + c of the input,
    divided by 32768. *)
Theorem decodeAudioData_buffer (data : list byte) (ctx : AudioContext)
    (sampleRate numChannels : Z) (buffer : AudioBuffer) :
  decodeAudioData data ctx sampleRate numChannels = Ok buffer ->
  let sampleCount := Z.of_nat (length data) / 2 in
  supports ctx numChannels sampleRate = true /\
  ab_sampleRate buffer = sampleRate /\
  has_shape buffer numChannels (ab_length buffer) /\
  1 <= ab_length buffer <= sampleCount / numChannels /\
  forall c i : nat,
    Z.of_nat c < numChannels -> Z.of_nat i < ab_length buffer ->
    exists v, int16LE data (i * Z.to_nat numChannels + c) = Some v /\
              sample_of buffer c i = Some (pcm_sample v).
Proof.
  intros Hok sampleCount.
  destruct (decodeAudioData_Ok_inv _ _ _ _ _ Hok) as [Heven Hg].
  pose proof Hg as [Hsup Hone]%grants_spec.
  destruct (decodeAudioData_frames data ctx sampleRate numChannels Heven Hg)
    as (buffer' & Hok' & Hshape & Hsamples).
  rewrite Hok in Hok'. injection Hok' as <-.
  pose proof (decodeAudioData_eq data ctx sampleRate numChannels Heven Hg) as Heq.
  cbv zeta in Heq. rewrite Hok in Heq. injection Heq as ->.
  cbn [ab_sampleRate ab_length] in *.
  apply supports_spec in Hsup as Hsup'.
  assert (0 <= sampleCount) by (apply Z.div_pos; lia).
  pose proof (unsigned_long_frames sampleCount numChannels ltac:(lia) ltac:(lia)).
  fold sampleCount in Hone.
  split; [exact Hsup |]. split; [reflexivity |]. split; [exact Hshape |].
  split; [subst sampleCount; lia | exact Hsamples].
Qed.

Lemma decodeAudioData_buffer_witness :
  let buffer := {| ab_sampleRate := 24000; ab_length := 2;
                   ab_channels := [[S754_finite true 8388608 (-23);
                                    S754_finite false 16776704 (-24)]] |} in
  supports (browser_context running) 1 24000 = true /\
  ab_sampleRate buffer = 24000 /\
  has_shape buffer 1 (ab_length buffer) /\
  1 <= ab_length buffer <= Z.of_nat (length [x00; x80; xff; x7f]) / 2 / 1 /\
  forall c i : nat,
    Z.of_nat c < 1 -> Z.of_nat i < ab_length buffer ->
    exists v, int16LE [x00; x80; xff; x7f] (i * Z.to_nat 1 + c) = Some v /\
              sample_of buffer c i = Some (pcm_sample v).
Proof.
  exact (decodeAudioData_buffer [x00; x80; xff; x7f] (browser_context running)
           24000 1 _ eq_refl).
Defined.

End InterpreterMore.

(** ** Synthesis and playback *)

Section Strings.

Lemma prefix_refl (s : string) : String.prefix s s = true.
Proof.
  induction s as [|c s IH]; cbn; [reflexivity |].
  destruct (ascii_dec c c); [exact IH | congruence].
Qed.

Lemma contains_append (p r : string) : contains r (String.append p r) = true.
Proof.
  induction p as [|c p IH].
  - change (String.append EmptyString r) with r.
    destruct r as [|c r]; [reflexivity |]. cbn [contains].
    now rewrite prefix_refl.
  - change (String.append (String c p) r) with (String c (String.append p r)).
    cbn [contains]. rewrite IH. apply orb_true_r.
Qed.

Lemma truthy_Some (v : option string) :
  truthy v = true <-> exists s, v = Some s /\ s <> EmptyString.
Proof.
  unfold truthy. destruct v as [s|].
  - destruct (String.eqb_spec s EmptyString) as [->|Hne]; cbn; split.
    + discriminate.
    + intros (s & [= <-] & Hs). congruence.
    + eauto.
    + reflexivity.
  - split; [discriminate | intros (s & [=] & _)].
Qed.

End Strings.

Section Synthesis.

(** The remote service, the text and the voice are any. *)
Variable generateContent :
  GenerateContentParameters -> result GenerateContentResponse.
Variables text voiceName : string.

(** With a key, a client is made, one request is sent, and the answer is
    sorted out in the order of the source: audio, text, block reason. *)
Lemma generateSpeech_with_key (key : string) :
  key <> EmptyString ->
  generateSpeech (Some key) generateContent text voiceName =
  ([NewGoogleGenAI key; GenerateContent (speech_request text voiceName)],
   match generateContent (speech_request text voiceName) with
   | Throw e => Throw e
   | Ok response =>
       if truthy (inline_audio response)
       then Ok (default EmptyString (inline_audio response))
       else if truthy (JS.text response)
       then Throw (Error (String.append "API returned text instead of audio: "
                            (default EmptyString (JS.text response))))
       else if truthy (promptFeedback response ≫= blockReason)
       then Throw (Error (String.append "Request was blocked: "
                            (default EmptyString
                               (promptFeedback response ≫= blockReason))))
       else Throw (Error "No audio data received from API. The response was empty or malformed.")
   end).
Proof.
  intros Hkey. unfold generateSpeech.
  assert (Ht : truthy (Some key) = true) by (apply truthy_Some; eauto).
  rewrite Ht. cbn [negb default]. fold (speech_request text voiceName).
  unfold io_bind, emit, lift, io_throw, io_ret.
  destruct (generateContent (speech_request text voiceName)) as [response|e];
    [|reflexivity].
  destruct (truthy (inline_audio response)); cbn [negb]; [reflexivity |].
  destruct (truthy (JS.text response)); [reflexivity |].
  destruct (truthy (promptFeedback response ≫= blockReason)); reflexivity.
Qed.

(** C10. Whatever the text and the voice, when the API_KEY environment
    variable is unset (or set to the empty string) [generateSpeech] throws
    the error "API_KEY environment variable not set" and has done nothing
    else: no client is constructed and no request sent. With a key, a client
    is constructed and one request sent. *)
Theorem generateSpeech_no_key :
  generateSpeech None generateContent text voiceName =
    ([], Throw (Error "API_KEY environment variable not set")) /\
  generateSpeech (Some EmptyString) generateContent text voiceName =
    ([], Throw (Error "API_KEY environment variable not set")) /\
  (forall key, key <> EmptyString ->
     effects (generateSpeech (Some key) generateContent text voiceName) =
       [NewGoogleGenAI key; GenerateContent (speech_request text voiceName)]).
Proof.
  split; [reflexivity |]. split; [reflexivity |].
  intros key Hkey. now rewrite generateSpeech_with_key.
Qed.

(** C9 (as the code has it). With a key set: a failure of the remote call is
    passed on as it is; a response with no inline audio data and no text,
    whose block reason is populated, gives the error "Request was blocked: "
    followed by that reason, which is not the generic error; a response with
    none of the three gives the generic error "No audio data received ...".
    A response with no inline audio data that carries text gives "API
    returned text instead of audio: " followed by the text, block reason or
    not. *)
Theorem generateSpeech_failures (key : string) :
  key <> EmptyString ->
  let thrown := outcome (generateSpeech (Some key) generateContent text voiceName) in
  let answer := generateContent (speech_request text voiceName) in
  (forall e, answer = Throw e -> thrown = Throw e) /\
  (forall response reason,
     answer = Ok response ->
     truthy (inline_audio response) = false ->
     truthy (JS.text response) = false ->
     promptFeedback response ≫= blockReason = Some reason ->
     reason <> EmptyString ->
     exists message,
       thrown = Throw (Error message) /\
       message = String.append "Request was blocked: " reason /\
       contains reason message = true /\
       message <> "No audio data received from API. The response was empty or malformed."%string) /\
  (forall response,
     answer = Ok response ->
     truthy (inline_audio response) = false ->
     truthy (JS.text response) = false ->
     truthy (promptFeedback response ≫= blockReason) = false ->
     thrown = Throw (Error "No audio data received from API. The response was empty or malformed.")) /\
  (forall response errorText,
     answer = Ok response ->
     truthy (inline_audio response) = false ->
     JS.text response = Some errorText ->
     errorText <> EmptyString ->
     thrown = Throw (Error (String.append "API returned text instead of audio: "
                              errorText))).
Proof.
  intros Hkey thrown answer. subst thrown answer.
  rewrite (generateSpeech_with_key key Hkey). unfold outcome; cbn [snd].
  repeat split.
  - intros e ->. reflexivity.
  - intros response reason -> Hno Htext Hreason Hne.
    rewrite Hno, Htext, Hreason.
    assert (Ht : truthy (Some reason) = true) by (apply truthy_Some; eauto).
    rewrite Ht. cbn [default]. eexists. split; [reflexivity |].
    split; [reflexivity |]. split; [apply contains_append | discriminate].
  - intros response -> Hno Htext Hreason. now rewrite Hno, Htext, Hreason.
  - intros response errorText -> Hno Htext Hne. rewrite Hno, Htext.
    assert (Ht : truthy (Some errorText) = true) by (apply truthy_Some; eauto).
    now rewrite Ht.
Qed.

End Synthesis.

Lemma generateSpeech_failures_witness :
  exists message,
    outcome (generateSpeech (Some "key"%string) (fun _ => Ok blocked_response)
               "Hello" "Kore") = Throw (Error message) /\
    message = String.append "Request was blocked: " "SAFETY" /\
    contains "SAFETY" message = true /\
    message <> "No audio data received from API. The response was empty or malformed."%string.
Proof.
  apply (proj1 (proj2 (generateSpeech_failures (fun _ => Ok blocked_response)
                         "Hello"%string "Kore"%string "key"%string
                         ltac:(discriminate)))
           blocked_response "SAFETY"%string);
    [reflexivity | reflexivity | reflexivity | reflexivity | discriminate].
Defined.

(** C9 as stated fails: a response with no inline audio data and a
    populated block reason that also carries text gives the error for text,
    in which the block reason does not appear. *)
Lemma generateSpeech_blocked_with_text :
  inline_audio blocked_response_with_text = None /\
  promptFeedback blocked_response_with_text ≫= blockReason = Some "SAFETY"%string /\
  outcome (generateSpeech (Some "key"%string)
             (fun _ => Ok blocked_response_with_text) "Hello" "Kore") =
    Throw (Error "API returned text instead of audio: I cannot say that.") /\
  contains "SAFETY" "API returned text instead of audio: I cannot say that." = false.
Proof. repeat split; reflexivity. Qed.

Section Playback.

Lemma decode_throws (base64 : string) (e : exn) :
  decode base64 = Throw e -> e = DOMException "InvalidCharacterError".
Proof.
  rewrite decode_eq. unfold atob.
  destruct (forgiving_base64_decode _); cbn [bind]; [discriminate |].
  now intros [= <-].
Qed.

Lemma decodeAudioData_throws (data : list byte) (ctx : AudioContext)
    (sampleRate numChannels : Z) (e : exn) :
  decodeAudioData data ctx sampleRate numChannels = Throw e ->
  e = RangeError \/ e = DOMException "NotSupportedError".
Proof.
  destruct (Z.eq_dec (Z.of_nat (length data) mod 2) 0) as [Heven|Hodd].
  - destruct (grants ctx numChannels
                (inject_Z (Z.of_nat (length data) / 2) / inject_Z numChannels)
                sampleRate) eqn:Hg.
    + rewrite decodeAudioData_eq by assumption. discriminate.
    + unfold decodeAudioData, new_Int16Array. rewrite Heven. cbn [Z.eqb bind].
      rewrite length_int16_elements. unfold createBuffer. rewrite Hg.
      cbn [bind]. intros [= <-]. now right.
  - unfold decodeAudioData, new_Int16Array.
    destruct (Z.eqb_spec (Z.of_nat (length data) mod 2) 0); [contradiction |].
    cbn [bind]. intros [= <-]. now left.
Qed.

(** What playback does with a context: it resumes a suspended context first,
    then decodes, and only with a buffer in hand creates, connects and starts
    a source. *)
Lemma playAudio_with_context (base64Audio : string) (audioContext : AudioContext) :
  playAudio base64Audio (Some audioContext) =
  let resumed := match state audioContext with
                 | suspended => [Resume]
                 | _ => []
                 end in
  match decode base64Audio with
  | Throw e => (resumed, Throw e)
  | Ok decodedBytes =>
      match decodeAudioData decodedBytes audioContext 24000 1 with
      | Throw e => (resumed, Throw e)
      | Ok audioBuffer =>
          (resumed ++ [CreateBufferSource; SetBuffer audioBuffer; Connect; Start],
           Ok tt)
      end
  end.
Proof.
  unfold playAudio, io_bind, lift, emit, io_ret.
  destruct (state audioContext); destruct (decode base64Audio) as [bytes|e];
    try reflexivity;
    destruct (decodeAudioData bytes audioContext 24000 1); reflexivity.
Qed.

(** C8. With no audio context (null), [playAudio] throws the error
    "AudioContext not initialized." whatever its input, valid base64 or not,
    and has done nothing before: nothing is decoded, no source is created,
    connected or started. With a context it never throws that error. *)
Theorem playAudio_no_context :
  (forall base64Audio : string,
     playAudio base64Audio None =
       ([], Throw (Error "AudioContext not initialized."))) /\
  (forall (base64Audio : string) (audioContext : AudioContext),
     outcome (playAudio base64Audio (Some audioContext)) <>
       Throw (Error "AudioContext not initialized.")).
Proof.
  split; [reflexivity |].
  intros base64Audio audioContext. rewrite playAudio_with_context. cbv zeta.
  destruct (decode base64Audio) as [decodedBytes|e] eqn:Hdecode.
  - destruct (decodeAudioData decodedBytes audioContext 24000 1)
      as [audioBuffer|e] eqn:Hbuffer; [discriminate |].
    apply decodeAudioData_throws in Hbuffer as [-> | ->]; discriminate.
  - apply decode_throws in Hdecode as ->. discriminate.
Qed.

End Playback.

(** ** More on playback and synthesis *)

Section PlaybackMore.

(** X6. With a context, playback resumes a suspended context first and then
    either starts one source, to which it has given the buffer decoded from
    its input, or throws and has created and started nothing. What it throws
    is the decoder's InvalidCharacterError, the RangeError of the 16-bit view
    or the NotSupportedError of the context, and nothing else. *)
Theorem playAudio_outcome (base64Audio : string) (audioContext : AudioContext) :
  let (done, finished) := playAudio base64Audio (Some audioContext) in
  match finished with
  | Ok _ =>
      exists decodedBytes audioBuffer,
        decode base64Audio = Ok decodedBytes /\
        decodeAudioData decodedBytes audioContext 24000 1 = Ok audioBuffer /\
        done = resumed audioContext ++
               [CreateBufferSource; SetBuffer audioBuffer; Connect; Start]
  | Throw e =>
      done = resumed audioContext /\
      (e = DOMException "InvalidCharacterError" \/ e = RangeError \/
       e = DOMException "NotSupportedError")
  end.
Proof.
  rewrite playAudio_with_context. cbv zeta. fold (resumed audioContext).
  destruct (decode base64Audio) as [decodedBytes|e] eqn:Hdecode.
  - destruct (decodeAudioData decodedBytes audioContext 24000 1)
      as [audioBuffer|e] eqn:Hbuffer.
    + exists decodedBytes, audioBuffer. auto.
    + split; [reflexivity |].
      apply decodeAudioData_throws in Hbuffer as [-> | ->]; auto.
  - split; [reflexivity |]. apply decode_throws in Hdecode as ->. auto.
Qed.

(** X7. The input playback refuses, each with its error and with nothing
    played: a string [atob] does not accept (InvalidCharacterError), the
    encoding of an odd number of bytes (RangeError), and the empty string,
    which decodes to no byte (NotSupportedError). *)
Theorem playAudio_rejects :
  (forall (base64Audio : string) (ctx : AudioContext),
     lenient_base64 base64Audio = false ->
     playAudio base64Audio (Some ctx) =
       (resumed ctx, Throw (DOMException "InvalidCharacterError"))) /\
  (forall (x : list byte) (ctx : AudioContext),
     Z.of_nat (length x) mod 2 = 1 ->
     playAudio (base64Encode x) (Some ctx) = (resumed ctx, Throw RangeError)) /\
  (forall ctx : AudioContext,
     playAudio EmptyString (Some ctx) =
       (resumed ctx, Throw (DOMException "NotSupportedError"))).
Proof.
  split; [|split].
  - intros base64Audio ctx Hs. rewrite playAudio_with_context. cbv zeta.
    destruct (forgiving_base64_decode (list_ascii_of_string base64Audio))
      as [vs|] eqn:Hf.
    + apply forgiving_lenient in Hf. congruence.
    + now rewrite (decode_of_failure _ Hf).
  - intros x ctx Hodd. rewrite playAudio_with_context, decode_encoded. cbv zeta.
    rewrite decodeAudioData_odd; [reflexivity | lia].
  - intros ctx. rewrite playAudio_with_context. cbv zeta.
    change (decode EmptyString) with (Ok (@nil byte)). cbv iota beta.
    now rewrite decodeAudioData_nil.
Qed.

Lemma playAudio_rejects_witness :
  playAudio (base64Encode [x00; x80; x01]) (Some (browser_context suspended)) =
  ([Resume], Throw RangeError).
Proof.
  apply (proj1 (proj2 playAudio_rejects) [x00; x80; x01]
           (browser_context suspended)).
  reflexivity.
Defined.

(** X8. Playback of the encoding of whole 16-bit mono samples (an even,
    non-zero number of bytes, fewer than 2^32 samples) in a context that
    supports mono at 24000 Hz: one source is started, and the buffer it
    plays has the rate 24000, one channel, one frame for each sample, and
    frame i is sample i of the bytes divided by 32768. *)
Theorem playAudio_plays_samples (x : list byte) (ctx : AudioContext) :
  x <> [] -> Z.of_nat (length x) mod 2 = 0 ->
  Z.of_nat (length x) / 2 < 2 ^ 32 ->
  supports ctx 1 24000 = true ->
  exists audioBuffer,
    playAudio (base64Encode x) (Some ctx) =
      (resumed ctx ++ [CreateBufferSource; SetBuffer audioBuffer; Connect; Start],
       Ok tt) /\
    ab_sampleRate audioBuffer = 24000 /\
    has_shape audioBuffer 1 (Z.of_nat (length x) / 2) /\
    forall i : nat,
      Z.of_nat i < Z.of_nat (length x) / 2 ->
      exists v, int16LE x i = Some v /\
                sample_of audioBuffer 0 i = Some (pcm_sample v).
Proof.
  intros Hne Heven Hlt Hsup.
  assert (Hframes : unsigned_long (inject_Z (Z.of_nat (length x) / 2) / inject_Z 1)
                    = Z.of_nat (length x) / 2).
  { unfold unsigned_long. rewrite Qfloor_div, Z.div_1_r.
    apply Z.mod_small. split; [apply Z.div_pos; lia | lia]. }
  assert (Hg : grants ctx 1 (inject_Z (Z.of_nat (length x) / 2) / inject_Z 1)
                 24000 = true).
  { apply grants_spec. split; [exact Hsup |]. rewrite Hframes.
    destruct x as [|a [|b x]]; [congruence | discriminate |].
    cbn [length]. apply Z.div_le_lower_bound; lia. }
  destruct (decodeAudioData_frames x ctx 24000 1 Heven Hg)
    as (audioBuffer & Hok & Hshape & Hsamples).
  rewrite Hframes in Hshape, Hsamples.
  exists audioBuffer. split; [|split; [|split]].
  - rewrite playAudio_with_context, decode_encoded. cbv zeta. now rewrite Hok.
  - pose proof (decodeAudioData_eq x ctx 24000 1 Heven Hg) as Heq.
    cbv zeta in Heq. rewrite Hok in Heq. injection Heq as Heq.
    now rewrite Heq.
  - exact Hshape.
  - intros i Hi. destruct (Hsamples 0%nat i ltac:(lia) Hi) as (v & Hv & Hs).
    exists v. split; [|exact Hs].
    now replace (i * Z.to_nat 1 + 0)%nat with i in Hv by lia.
Qed.

Lemma playAudio_plays_samples_witness :
  exists audioBuffer,
    playAudio (base64Encode [x00; x80; xff; x7f])
              (Some (browser_context suspended)) =
      (resumed (browser_context suspended) ++
         [CreateBufferSource; SetBuffer audioBuffer; Connect; Start], Ok tt) /\
    ab_sampleRate audioBuffer = 24000 /\
    has_shape audioBuffer 1 (Z.of_nat (length [x00; x80; xff; x7f]) / 2) /\
    forall i : nat,
      Z.of_nat i < Z.of_nat (length [x00; x80; xff; x7f]) / 2 ->
      exists v, int16LE [x00; x80; xff; x7f] i = Some v /\
                sample_of audioBuffer 0 i = Some (pcm_sample v).
Proof.
  apply (playAudio_plays_samples [x00; x80; xff; x7f] (browser_context suspended));
    [discriminate | reflexivity | reflexivity | reflexivity].
Defined.

End PlaybackMore.

Section SynthesisMore.

Variable generateContent :
  GenerateContentParameters -> result GenerateContentResponse.
Variables text voiceName : string.

(** X9. With a key, [generateSpeech] returns a string exactly when the
    remote call answers and the inline data of the first part of the first
    candidate is a non-empty string; it returns that string, whatever text
    or block reason the response carries beside it. It never returns the
    empty string. *)
Theorem generateSpeech_returns (key base64Audio : string) :
  key <> EmptyString ->
  outcome (generateSpeech (Some key) generateContent text voiceName) =
    Ok base64Audio <->
  exists response,
    generateContent (speech_request text voiceName) = Ok response /\
    inline_audio response = Some base64Audio /\
    base64Audio <> EmptyString.
Proof.
  intros Hkey. rewrite (generateSpeech_with_key _ _ _ key Hkey).
  unfold outcome; cbn [snd].
  destruct (generateContent (speech_request text voiceName)) as [response|e].
  - destruct (truthy (inline_audio response)) eqn:Ht.
    + apply truthy_Some in Ht as (s & Hs & Hne). rewrite Hs. cbn [default from_option id].
      split.
      * intros [= <-]. exists response. auto.
      * intros (r & [= <-] & Hr & _). congruence.
    + split.
      * destruct (truthy (JS.text response)); [discriminate |].
        destruct (truthy (promptFeedback response ≫= blockReason)); discriminate.
      * intros (r & [= <-] & Hr & Hne).
        assert (truthy (inline_audio response) = true)
          by (apply truthy_Some; eauto).
        congruence.
  - split; [discriminate | intros (r & [=] & _)].
Qed.

End SynthesisMore.

Lemma generateSpeech_returns_witness :
  outcome (generateSpeech (Some "key"%string)
             (fun _ => Ok {| candidates :=
                               Some [{| content :=
                                 Some {| parts :=
                                   Some [{| part_text := None;
                                            inlineData :=
                                              Some {| data := Some "AIA="%string;
                                                      mimeType := None |} |}] |} |}];
                             promptFeedback :=
                               Some {| blockReason := Some "OTHER"%string |};
                             JS.text := Some "spoken"%string |})
             "Hello" "Kore") = Ok "AIA="%string.
Proof.
  apply (generateSpeech_returns _ "Hello"%string "Kore"%string "key"%string
           "AIA="%string ltac:(discriminate)).
  eexists. split; [reflexivity |]. split; [reflexivity | discriminate].
Defined.

(** ** The WAV path, and the two paths side by side *)

Section WavMore.

Lemma in_view_spec (view : list byte) (offset size : Z) :
  in_view view offset size = true <->
  0 <= offset /\ offset + size <= Z.of_nat (length view).
Proof. unfold in_view. rewrite andb_true_iff, !Z.leb_le. reflexivity. Qed.

(** The loop of [writeString] from its pass [i] on, when what is left fits. *)
Lemma writeString_loop (string : string) (offset : Z) (n : nat) (i : Z)
    (view : list byte) :
  0 <= offset + i -> offset + i + Z.of_nat n <= Z.of_nat (length view) ->
  for_range n i
    (fun i view => setUint8 view (offset + i) (charCodeAt string i)) view =
  Ok (overwrite n (Z.to_nat (offset + i))
        (fun j => ToUint8 (charCodeAt string (Z.of_nat j - offset))) view).
Proof.
  revert i view. induction n as [|n IH]; intros i view Hlo Hhi; [reflexivity |].
  cbn [for_range overwrite]. unfold setUint8 at 1.
  assert (Hin : in_view view (offset + i) 1 = true) by (apply in_view_spec; lia).
  rewrite Hin. cbn [bind]. rewrite IH.
  - replace (Z.to_nat (offset + (i + 1))) with (S (Z.to_nat (offset + i))) by lia.
    now replace (Z.of_nat (Z.to_nat (offset + i)) - offset) with i by lia.
  - lia.
  - rewrite length_insert. lia.
Qed.

(** The same loop when what is left does not fit. *)
Lemma writeString_loop_throws (string : string) (offset : Z) (n : nat) (i : Z)
    (view : list byte) :
  (0 < n)%nat ->
  offset + i < 0 \/ Z.of_nat (length view) < offset + i + Z.of_nat n ->
  for_range n i
    (fun i view => setUint8 view (offset + i) (charCodeAt string i)) view =
  Throw RangeError.
Proof.
  revert i view. induction n as [|n IH]; intros i view Hn Hout; [lia |].
  cbn [for_range]. unfold setUint8 at 1.
  destruct (in_view view (offset + i) 1) eqn:Hin; [|reflexivity].
  apply in_view_spec in Hin. cbn [bind]. apply IH.
  - destruct n; lia.
  - rewrite length_insert. lia.
Qed.

(** X10. [writeString] and the bounds of the view. When the string is empty
    or fits between [offset] and the end of the view, the view keeps its
    length, bytes offset .. offset + length - 1 hold the codes of the
    string's characters (modulo 256), in order, and every other byte is as
    before. Otherwise (a negative offset, or a string that reaches past the
    end) it throws a RangeError. *)
Theorem writeString_outcome (view : list byte) (offset : Z) (string : string) :
  let len := Z.of_nat (String.length string) in
  if (len =? 0) || in_view view offset len then
    exists view',
      writeString view offset string = Ok view' /\
      length view' = length view /\
      forall j : nat,
        view' !! j =
        if decide (offset <= Z.of_nat j < offset + len /\
                   Z.of_nat j < Z.of_nat (length view))
        then Some (ToUint8 (charCodeAt string (Z.of_nat j - offset)))
        else view !! j
  else writeString view offset string = Throw RangeError.
Proof.
  intros len. unfold writeString.
  destruct (Z.eqb_spec len 0) as [Hz|Hnz]; cbn [orb].
  - assert (Hs : String.length string = 0%nat) by lia. rewrite Hs.
    exists view. split; [reflexivity |]. split; [reflexivity |].
    intros j. destruct (decide _) as [H|]; [lia | reflexivity].
  - destruct (in_view view offset len) eqn:Hin.
    + apply in_view_spec in Hin.
      rewrite (writeString_loop string offset (String.length string) 0 view)
        by (fold len; lia).
      eexists. split; [reflexivity |]. split; [apply overwrite_length |].
      intros j. rewrite overwrite_lookup.
      repeat destruct (decide _); try reflexivity; lia.
    + apply writeString_loop_throws; [lia |].
      destruct (Z.ltb_spec (offset + 0) 0) as [|Hlo]; [now left | right].
      destruct (Z.ltb_spec (Z.of_nat (length view)) (offset + 0 + len))
        as [|Hhi]; [assumption |].
      assert (in_view view offset len = true) by (apply in_view_spec; lia).
      congruence.
Qed.

(** Download: the base64 payload of N bytes becomes a blob of 44 + N bytes,
    the canonical header and then the bytes. *)
Lemma createWavBlobFromBase64_encoded (x : list byte) :
  createWavBlobFromBase64 (base64Encode x) =
  Ok (new_Blob [wav_header (Z.of_nat (length x)); x] "audio/wav").
Proof.
  unfold createWavBlobFromBase64. rewrite decode_encoded. cbn [bind].
  apply createWavBlob_eq.
Qed.

(** What download makes of a string [atob] accepts, and of any other. *)
Lemma createWavBlobFromBase64_lenient (base64Audio : string) :
  lenient_base64 base64Audio = true ->
  exists pcmData,
    decode base64Audio = Ok pcmData /\
    createWavBlobFromBase64 base64Audio =
      Ok {| blob_bytes := wav_header (Z.of_nat (length pcmData)) ++ pcmData;
            blob_type := "audio/wav" |}.
Proof.
  intros Hs. unfold createWavBlobFromBase64.
  destruct (lenient_forgiving base64Audio Hs) as (vs & Hvs & Hr).
  exists (map ToUint8 vs).
  rewrite (decode_of_forgiving base64Audio vs Hvs Hr). cbn [bind].
  split; [reflexivity |].
  rewrite createWavBlob_eq. unfold new_Blob. cbn [concat].
  now rewrite app_nil_r.
Qed.

Lemma createWavBlobFromBase64_invalid (base64Audio : string) :
  lenient_base64 base64Audio = false ->
  createWavBlobFromBase64 base64Audio =
  Throw (DOMException "InvalidCharacterError").
Proof.
  intros Hs. unfold createWavBlobFromBase64.
  destruct (forgiving_base64_decode (list_ascii_of_string base64Audio))
    as [vs|] eqn:Hf.
  - apply forgiving_lenient in Hf. congruence.
  - now rewrite (decode_of_failure _ Hf).
Qed.

(** X11. [createWavBlobFromBase64] on every string. On a string [atob]
    accepts it returns a blob of type audio/wav: the canonical 44-byte
    header for the number of bytes decoded, then the bytes decoded. On any
    other it throws the decoder's InvalidCharacterError. It throws nothing
    else: the writes of the header never leave the 44 bytes. *)
Theorem createWavBlobFromBase64_outcome (base64Audio : string) :
  if lenient_base64 base64Audio then
    exists pcmData,
      decode base64Audio = Ok pcmData /\
      createWavBlobFromBase64 base64Audio =
        Ok {| blob_bytes := wav_header (Z.of_nat (length pcmData)) ++ pcmData;
              blob_type := "audio/wav" |} /\
      canonical_header (wav_header (Z.of_nat (length pcmData)))
        (Z.of_nat (length pcmData))
  else
    createWavBlobFromBase64 base64Audio =
    Throw (DOMException "InvalidCharacterError").
Proof.
  destruct (lenient_base64 base64Audio) eqn:Hs.
  - destruct (createWavBlobFromBase64_lenient base64Audio Hs)
      as (pcmData & Hd & Hb).
    exists pcmData. split; [exact Hd |]. split; [exact Hb |].
    apply wav_header_canonical.
  - now apply createWavBlobFromBase64_invalid.
Qed.

End WavMore.

Section Pipeline.

Lemma int16LE_Some (data : list byte) (k : nat) (v : Z) :
  int16LE data k = Some v -> (2 * k + 1 < length data)%nat.
Proof.
  unfold int16LE. destruct (data !! (2 * k)%nat); [|discriminate].
  destruct (data !! (2 * k + 1)%nat) eqn:E; [|discriminate].
  intros _. now apply lookup_lt_Some in E.
Qed.

(** X12. The file downloaded describes the audio played. For a payload of
    whole 16-bit samples (an even, non-zero number of bytes below 2^32) and
    a context that supports mono at 24000 Hz, the header of the blob
    [createWavBlobFromBase64] makes and the buffer [playAudio] plays agree:
    the channel count and the sample rate of the header are the buffer's,
    the data size is the block alignment times the buffer's frame count,
    and every 16-bit sample of the blob's payload, divided by 32768, is the
    buffer's sample at the same place. *)
Theorem download_matches_playback (x : list byte) (ctx : AudioContext) :
  x <> [] -> Z.of_nat (length x) mod 2 = 0 ->
  Z.of_nat (length x) < 2 ^ 32 ->
  supports ctx 1 24000 = true ->
  exists blob audioBuffer,
    createWavBlobFromBase64 (base64Encode x) = Ok blob /\
    effects (playAudio (base64Encode x) (Some ctx)) =
      resumed ctx ++ [CreateBufferSource; SetBuffer audioBuffer; Connect; Start] /\
    let header := take 44 (blob_bytes blob) in
    let payload := drop 44 (blob_bytes blob) in
    le_value (field header 22 2) = Z.of_nat (length (ab_channels audioBuffer)) /\
    le_value (field header 24 4) = ab_sampleRate audioBuffer /\
    le_value (field header 40 4) =
      le_value (field header 32 2) * ab_length audioBuffer /\
    forall (i : nat) (v : Z),
      int16LE payload i = Some v ->
      sample_of audioBuffer 0 i = Some (pcm_sample v).
Proof.
  intros Hne Heven Hlt Hsup.
  assert (Hframes : unsigned_long (inject_Z (Z.of_nat (length x) / 2) / inject_Z 1)
                    = Z.of_nat (length x) / 2).
  { unfold unsigned_long. rewrite Qfloor_div, Z.div_1_r.
    apply Z.mod_small. split; [apply Z.div_pos; lia |].
    apply Z.div_lt_upper_bound; lia. }
  assert (Hg : grants ctx 1 (inject_Z (Z.of_nat (length x) / 2) / inject_Z 1)
                 24000 = true).
  { apply grants_spec. split; [exact Hsup |]. rewrite Hframes.
    destruct x as [|a [|b x]]; [congruence | discriminate |].
    cbn [length]. apply Z.div_le_lower_bound; lia. }
  destruct (decodeAudioData_frames x ctx 24000 1 Heven Hg)
    as (audioBuffer & Hok & Hshape & Hsamples).
  rewrite Hframes in Hshape, Hsamples.
  pose proof (decodeAudioData_eq x ctx 24000 1 Heven Hg) as Heq.
  cbv zeta in Heq. rewrite Hok in Heq. injection Heq as Heq.
  eexists. exists audioBuffer.
  split; [apply createWavBlobFromBase64_encoded |]. split.
  { rewrite playAudio_with_context, decode_encoded. cbv zeta.
    now rewrite Hok. }
  unfold new_Blob. cbn [blob_bytes concat]. rewrite app_nil_r.
  rewrite take_app_length', drop_app_length' by reflexivity.
  destruct Hshape as (Hlen & Hch & _).
  destruct (wav_header_canonical (Z.of_nat (length x)))
    as (_ & _ & _ & _ & _ & _ & _ & H22 & H24 & _ & H32 & _ & _ & H40).
  rewrite H22, H24, H32, H40, le_value_le_bytes, Hch, Hlen.
  split; [reflexivity |]. split; [now rewrite Heq |]. split.
  - change (256 ^ Z.of_nat 4) with (2 ^ 32). rewrite Z.mod_small by lia.
    Z.to_euclidean_division_equations; lia.
  - intros i v Hv. pose proof (int16LE_Some _ _ _ Hv) as Hi.
    destruct (Hsamples 0%nat i ltac:(lia)) as (v' & Hv' & Hs).
    { Z.to_euclidean_division_equations; lia. }
    replace (i * Z.to_nat 1 + 0)%nat with i in Hv' by lia. congruence.
Qed.

Lemma download_matches_playback_witness :
  exists blob audioBuffer,
    createWavBlobFromBase64 (base64Encode [x00; x80; xff; x7f]) = Ok blob /\
    effects (playAudio (base64Encode [x00; x80; xff; x7f])
               (Some (browser_context running))) =
      resumed (browser_context running) ++
        [CreateBufferSource; SetBuffer audioBuffer; Connect; Start] /\
    let header := take 44 (blob_bytes blob) in
    let payload := drop 44 (blob_bytes blob) in
    le_value (field header 22 2) = Z.of_nat (length (ab_channels audioBuffer)) /\
    le_value (field header 24 4) = ab_sampleRate audioBuffer /\
    le_value (field header 40 4) =
      le_value (field header 32 2) * ab_length audioBuffer /\
    forall (i : nat) (v : Z),
      int16LE payload i = Some v ->
      sample_of audioBuffer 0 i = Some (pcm_sample v).
Proof.
  apply (download_matches_playback [x00; x80; xff; x7f] (browser_context running));
    [discriminate | reflexivity | reflexivity | reflexivity].
Defined.

End Pipeline.

(** ** The component

    What the handlers of [App.tsx] do, one run at a time, and what a session
    of user actions keeps. *)

Section Component.

Import App.

(** The fields of a state that is written out. *)
Ltac state_fields :=
  cbn [text selectedVoice isLoading error notification audioData audioContextRef
       setText setSelectedVoice setIsLoading setError setNotification
       setAudioData setAudioContextRef] in *.

Variable env : Env.

Lemma setItem_getItem (key key' value : string) (storage : Storage) :
  getItem key' (setItem key value storage) =
  if decide (key = key') then Some value else getItem key' storage.
Proof. unfold getItem, setItem. apply lookup_insert. Qed.

Lemma removeItem_getItem (key key' : string) (storage : Storage) :
  getItem key' (removeItem key storage) =
  if decide (key = key') then None else getItem key' storage.
Proof. unfold getItem, removeItem. apply lookup_delete. Qed.

(** What a render leaves: the state it was given but for the audio, and a
    storage in which the keys of the values that changed are written. *)
Lemma render_spec (prev st : State) (storage : Storage) :
  let changed := negb (String.eqb (text prev) (text st)) ||
                 negb (String.eqb (selectedVoice prev) (selectedVoice st)) in
  let (st', storage') := render prev (st, storage) in
  st' = (if changed then setAudioData None st else st) /\
  getItem LOCAL_STORAGE_TEXT_KEY storage' =
    (if String.eqb (text prev) (text st)
     then getItem LOCAL_STORAGE_TEXT_KEY storage else Some (text st)) /\
  getItem LOCAL_STORAGE_VOICE_KEY storage' =
    (if String.eqb (selectedVoice prev) (selectedVoice st)
     then getItem LOCAL_STORAGE_VOICE_KEY storage else Some (selectedVoice st)) /\
  forall key, key <> LOCAL_STORAGE_TEXT_KEY -> key <> LOCAL_STORAGE_VOICE_KEY ->
    getItem key storage' = getItem key storage.
Proof.
  destruct prev as [t0 v0 l0 e0 n0 a0 r0], st as [t1 v1 l1 e1 n1 a1 r1].
  unfold render, saveText, saveVoice, setAudioData.
  cbn [fst text selectedVoice isLoading error notification audioData audioContextRef].
  destruct (String.eqb t0 t1);
    cbn [fst text selectedVoice isLoading error notification audioData
         audioContextRef];
    destruct (String.eqb v0 v1); cbn [negb orb];
    (split; [reflexivity |]); repeat split; try intros key H1 H2;
    rewrite ?setItem_getItem; repeat destruct (decide _);
    try reflexivity; try discriminate; congruence.
Qed.

Lemma trimStart_chars_nil (l : list ascii) :
  trimStart_chars l = [] <-> forallb is_white_space l = true.
Proof.
  induction l as [|c l IH]; cbn; [tauto |].
  destruct (is_white_space c); cbn; [exact IH |].
  split; discriminate.
Qed.

Lemma trimStart_chars_snoc (l : list ascii) (c : ascii) :
  is_white_space c = false -> trimStart_chars (l ++ [c]) <> [].
Proof.
  intros Hc. induction l as [|a l IH]; cbn.
  - now rewrite Hc.
  - destruct (is_white_space a); [exact IH | discriminate].
Qed.

Lemma trimStart_chars_head (l : list ascii) (c : ascii) (r : list ascii) :
  trimStart_chars l = c :: r -> is_white_space c = false.
Proof.
  induction l as [|a l IH]; cbn; [discriminate |].
  destruct (is_white_space a) eqn:Ha; [exact IH |].
  now intros [= <- _].
Qed.

(** [!text.trim()] holds of the texts that are white space throughout. *)
Lemma trim_blank (s : string) :
  String.eqb (trim s) EmptyString =
  forallb is_white_space (list_ascii_of_string s).
Proof.
  unfold trim.
  destruct (trimStart_chars (list_ascii_of_string s)) as [|c r] eqn:E.
  - apply trimStart_chars_nil in E. now rewrite E.
  - assert (Hc := trimStart_chars_head _ _ _ E).
    assert (Hf : forallb is_white_space (list_ascii_of_string s) = false).
    { destruct (forallb _ _) eqn:Hf; [|reflexivity].
      apply trimStart_chars_nil in Hf. congruence. }
    rewrite Hf. cbn [rev].
    pose proof (trimStart_chars_snoc (rev r) c Hc) as Hne.
    destruct (trimStart_chars (rev r ++ [c])) as [|a t]; [congruence |].
    cbn [rev]. destruct (rev t ++ [a]) as [|b u] eqn:Hu; [|reflexivity].
    now apply app_eq_nil in Hu as [_ [=]].
Qed.

(** The effects of a synthesis call: none without a key, the construction
    of the client and one request with one. *)
Lemma generateSpeech_effects (key : option string)
    (remote : GenerateContentParameters -> result GenerateContentResponse)
    (t v : string) :
  effects (generateSpeech key remote t v) =
  if truthy key
  then [NewGoogleGenAI (default EmptyString key);
        GenerateContent (speech_request t v)]
  else [].
Proof.
  unfold generateSpeech. destruct (truthy key); cbn [negb]; [|reflexivity].
  fold (speech_request t v). unfold io_bind, emit, lift, io_throw, io_ret.
  destruct (remote (speech_request t v)) as [response|e]; [|reflexivity].
  destruct (truthy (inline_audio response)); cbn [negb]; [reflexivity |].
  destruct (truthy (JS.text response)); [reflexivity |].
  destruct (truthy (promptFeedback response ≫= blockReason)); reflexivity.
Qed.

Lemma generateSpeech_no_Start (key : option string)
    (remote : GenerateContentParameters -> result GenerateContentResponse)
    (t v : string) :
  ~ In Start (effects (generateSpeech key remote t v)).
Proof.
  rewrite generateSpeech_effects. destruct (truthy key); cbn; intuition discriminate.
Qed.

Lemma resumed_no_Start (ctx : AudioContext) : ~ In Start (resumed ctx).
Proof. unfold resumed. destruct (state ctx); cbn; intuition discriminate. Qed.

Lemma In_Call (e : event) (l : list event) : In (Call e) (map Call l) <-> In e l.
Proof.
  rewrite in_map_iff. split.
  - now intros (e' & [= <-] & H).
  - eauto.
Qed.

Lemma handleSpeak_guard (st : State) :
  forallb is_white_space (list_ascii_of_string (text st)) = true \/
  isLoading st = true ->
  handleSpeak env st = ([], st).
Proof.
  intros H. unfold handleSpeak. rewrite trim_blank.
  destruct H as [-> | ->]; [reflexivity | now rewrite orb_true_r].
Qed.

(** A run of [handleSpeak] that passes its guard, step by step. *)
Lemma handleSpeak_eq (st : State) :
  forallb is_white_space (list_ascii_of_string (text st)) = false ->
  isLoading st = false ->
  handleSpeak env st =
  let created := match audioContextRef st with
                 | Some _ => []
                 | None => [NewAudioContext 24000]
                 end in
  match speaking_context env st with
  | Throw _ =>
      (created,
       setError (Some "Your browser does not support the Web Audio API.") st)
  | Ok ctx =>
      let before := created ++ map Call (resumed ctx) in
      let st := setNotification None (setAudioData None (setError None
                  (setIsLoading true (setAudioContextRef (Some (awake ctx)) st)))) in
      let (requested, spoken) :=
        generateSpeech (API_KEY env) (generateContent env)
          (text st) (selectedVoice st) in
      match spoken with
      | Throw err =>
          (before ++ map Call requested,
           setIsLoading false (setError (Some (message env err)) st))
      | Ok base64Audio =>
          let st := setAudioData (Some base64Audio) st in
          let (played, finished) := playAudio base64Audio (Some (awake ctx)) in
          (before ++ map Call requested ++ map Call played,
           setIsLoading false
             match finished with
             | Throw err => setError (Some (message env err)) st
             | Ok _ => st
             end)
      end
  end.
Proof.
  intros Hblank Hload. unfold handleSpeak, speaking_context.
  rewrite trim_blank, Hblank, Hload. cbn [orb].
  destruct (audioContextRef st) as [ctx|];
    [|destruct (newAudioContext env) as [ctx|e]; [|reflexivity]].
  all: cbv zeta; unfold resumed, awake; destruct (state ctx);
    state_fields;
    destruct (generateSpeech _ _ _ _) as [requested [base64Audio|err]];
    rewrite <- ?app_assoc; try reflexivity;
    destruct (playAudio _ _) as [played [[]|err]]; reflexivity.
Qed.

Lemma playAudio_no_request (base64Audio : string) (ctx : option AudioContext) :
  List.filter is_request (map Call (effects (playAudio base64Audio ctx))) = [].
Proof.
  destruct ctx as [ctx|]; [|reflexivity].
  rewrite playAudio_with_context. cbv zeta.
  destruct (decode base64Audio) as [bytes|e];
    [destruct (decodeAudioData bytes ctx 24000 1) as [buffer|e] |];
    destruct (state ctx); reflexivity.
Qed.

Lemma resumed_no_request (ctx : AudioContext) :
  List.filter is_request (map Call (resumed ctx)) = [].
Proof. unfold resumed. now destruct (state ctx). Qed.

(** X13. When [handleSpeak] calls the remote service. A run sends one
    request, for the text and the voice of the state (the prompt "Say: "
    followed by the text), exactly when the text is not white space
    throughout, the component is not loading, there is an audio context (the
    one kept, or else the constructor gives one) and the key is set. In
    every other case it sends none. *)
Theorem handleSpeak_requests (st : State) :
  List.filter is_request (fst (handleSpeak env st)) =
  if negb (forallb is_white_space (list_ascii_of_string (text st))) &&
     negb (isLoading st) &&
     match speaking_context env st with Ok _ => true | Throw _ => false end &&
     truthy (API_KEY env)
  then [Call (GenerateContent (speech_request (text st) (selectedVoice st)))]
  else [].
Proof.
  destruct (forallb is_white_space (list_ascii_of_string (text st))) eqn:Hblank;
    [now rewrite handleSpeak_guard by auto |].
  destruct (isLoading st) eqn:Hload; [now rewrite handleSpeak_guard by auto |].
  rewrite handleSpeak_eq by assumption. cbn [negb andb]. cbv zeta.
  destruct (speaking_context env st) as [ctx|e] eqn:Hctx.
  - state_fields.
    pose proof (generateSpeech_effects (API_KEY env) (generateContent env)
                  (text st) (selectedVoice st)) as Heff.
    destruct (generateSpeech _ _ _ _) as [requested [base64Audio|err]];
      unfold effects in Heff; cbn [fst] in Heff; subst requested.
    + pose proof (playAudio_no_request base64Audio (Some (awake ctx))) as Hp.
      destruct (playAudio _ _) as [played finished].
      unfold effects in Hp; cbn [fst] in Hp. cbn [fst].
      rewrite !List.filter_app, Hp, resumed_no_request, app_nil_r.
      destruct (audioContextRef st); destruct (truthy (API_KEY env)); reflexivity.
    + cbn [fst]. rewrite !List.filter_app, resumed_no_request.
      destruct (audioContextRef st); destruct (truthy (API_KEY env)); reflexivity.
  - destruct (audioContextRef st); reflexivity.
Qed.

(** X14. The state a run of [handleSpeak] ends in, once past the guard and
    with a context. The component is no longer loading and shows no
    notification; the text and the voice are untouched; the context, resumed
    if it was suspended, is kept for the next run; and the audio kept for
    download is the string the synthesis returned, also when playback then
    failed, and none when the synthesis failed. *)
Theorem handleSpeak_state (st : State) (ctx : AudioContext) :
  forallb is_white_space (list_ascii_of_string (text st)) = false ->
  isLoading st = false ->
  speaking_context env st = Ok ctx ->
  let st' := snd (handleSpeak env st) in
  text st' = text st /\ selectedVoice st' = selectedVoice st /\
  isLoading st' = false /\ notification st' = None /\
  audioContextRef st' = Some (awake ctx) /\
  audioData st' =
    match outcome (generateSpeech (API_KEY env) (generateContent env)
                     (text st) (selectedVoice st)) with
    | Ok base64Audio => Some base64Audio
    | Throw _ => None
    end.
Proof.
  intros Hblank Hload Hctx. rewrite handleSpeak_eq by assumption.
  rewrite Hctx. cbv zeta. state_fields. unfold outcome.
  destruct (generateSpeech _ _ _ _) as [requested [base64Audio|err]];
    [destruct (playAudio _ _) as [played [[]|err]] |];
    cbn [snd]; state_fields; repeat split; reflexivity.
Qed.

(** X15. The error a run of [handleSpeak] shows. After a run past the guard
    with a context, no error is shown exactly when a source was started;
    otherwise the error is the message of what the synthesis threw, or of
    what playback threw. *)
Theorem handleSpeak_error (st : State) (ctx : AudioContext) :
  forallb is_white_space (list_ascii_of_string (text st)) = false ->
  isLoading st = false ->
  speaking_context env st = Ok ctx ->
  let (done, st') := handleSpeak env st in
  (error st' = None <-> In (Call Start) done) /\
  match outcome (generateSpeech (API_KEY env) (generateContent env)
                   (text st) (selectedVoice st)) with
  | Throw err => error st' = Some (message env err)
  | Ok base64Audio =>
      match outcome (playAudio base64Audio (Some (awake ctx))) with
      | Throw err => error st' = Some (message env err)
      | Ok _ => error st' = None
      end
  end.
Proof.
  intros Hblank Hload Hctx. rewrite handleSpeak_eq by assumption.
  rewrite Hctx. cbv zeta. state_fields. unfold outcome.
  pose proof (generateSpeech_no_Start (API_KEY env) (generateContent env)
                (text st) (selectedVoice st)) as Hreq.
  assert (Hcreated : ~ In (Call Start)
            match audioContextRef st with
            | Some _ => []
            | None => [NewAudioContext 24000]
            end).
  { destruct (audioContextRef st); cbn; intuition discriminate. }
  pose proof (resumed_no_Start ctx) as Hres.
  destruct (generateSpeech _ _ _ _) as [requested [base64Audio|err]];
    unfold effects in Hreq; cbn [fst snd] in Hreq |- *.
  - pose proof (playAudio_with_context base64Audio (awake ctx)) as Hplay.
    cbv zeta in Hplay. fold (resumed (awake ctx)) in Hplay.
    pose proof (resumed_no_Start (awake ctx)) as Hres'.
    destruct (playAudio _ _) as [played finished].
    destruct (decode base64Audio) as [bytes|e];
      [destruct (decodeAudioData bytes (awake ctx) 24000 1) as [buffer|e] |];
      injection Hplay as -> ->; state_fields; cbn [snd]; cbv beta iota.
      all: (split; [|reflexivity]);
        rewrite ?in_app_iff, ?In_Call, ?in_app_iff; cbn [In];
        intuition (try discriminate; auto).
  - state_fields. cbv beta iota. split; [|reflexivity].
    rewrite !in_app_iff, !In_Call. intuition discriminate.
Qed.

(** X16. [handleDownload] on every state. With no audio (or the empty
    string) it does nothing. With audio that [atob] accepts it offers one
    file, gemini-speech.wav: the blob of the canonical header and the bytes
    decoded, through a link that is clicked and removed and an object URL
    that is revoked afterwards; it then notifies "Download started." and
    leaves the error as it was. With any other audio it touches no link,
    logs the decoder's error and shows "Failed to prepare audio for
    download.". *)
Theorem handleDownload_outcome (st : State) :
  match audioData st with
  | Some base64Audio =>
      if String.eqb base64Audio EmptyString then handleDownload st = ([], st)
      else if lenient_base64 base64Audio then
        exists pcmData,
          decode base64Audio = Ok pcmData /\
          let wavBlob :=
            {| blob_bytes := wav_header (Z.of_nat (length pcmData)) ++ pcmData;
               blob_type := "audio/wav" |} in
          handleDownload st =
          ([CreateObjectURL wavBlob; CreateElement "a";
            SetHref (ObjectURL wavBlob); SetDownload "gemini-speech.wav";
            AppendChild; Click; RemoveChild; RevokeObjectURL (ObjectURL wavBlob)],
           setNotification (Some "Download started.") st)
      else
        handleDownload st =
        ([ConsoleError "Download failed:" (DOMException "InvalidCharacterError")],
         setError (Some "Failed to prepare audio for download.") st)
  | None => handleDownload st = ([], st)
  end.
Proof.
  unfold handleDownload. destruct (audioData st) as [base64Audio|]; [|reflexivity].
  cbn [truthy default from_option id].
  destruct (String.eqb base64Audio EmptyString); [reflexivity |]. cbn [negb].
  destruct (lenient_base64 base64Audio) eqn:Hs.
  - destruct (createWavBlobFromBase64_lenient base64Audio Hs)
      as (pcmData & Hd & Hb).
    exists pcmData. split; [exact Hd |]. now rewrite Hb.
  - now rewrite createWavBlobFromBase64_invalid.
Qed.

Lemma handleSpeak_text (st : State) :
  text (snd (handleSpeak env st)) = text st /\
  selectedVoice (snd (handleSpeak env st)) = selectedVoice st.
Proof.
  unfold handleSpeak.
  destruct (String.eqb (trim (text st)) EmptyString || isLoading st);
    [split; reflexivity |].
  destruct (audioContextRef st) as [ctx|];
    [|destruct (newAudioContext env) as [ctx|e]; [|split; reflexivity]].
  all: destruct (state ctx); state_fields;
    destruct (generateSpeech _ _ _ _) as [requested [base64Audio|err]];
    try (split; reflexivity);
    destruct (playAudio _ _) as [played [[]|err]]; split; reflexivity.
Qed.

Lemma handleDownload_text (st : State) :
  text (snd (handleDownload st)) = text st /\
  selectedVoice (snd (handleDownload st)) = selectedVoice st.
Proof.
  unfold handleDownload. destruct (negb (truthy (audioData st)));
    [split; reflexivity |].
  destruct (createWavBlobFromBase64 _); split; reflexivity.
Qed.

Lemma render_same (prev st : State) (storage : Storage) :
  text st = text prev -> selectedVoice st = selectedVoice prev ->
  render prev (st, storage) = (st, storage).
Proof.
  intros Ht Hv. unfold render. cbn [fst]. rewrite Ht, String.eqb_refl.
  cbn [fst]. now rewrite Hv, String.eqb_refl.
Qed.

Lemma saved_render (prev st : State) (storage : Storage) :
  (text prev = text st ->
   default DEFAULT_TEXT (getItem LOCAL_STORAGE_TEXT_KEY storage) = text st) ->
  (selectedVoice prev = selectedVoice st ->
   default first_voice_id (getItem LOCAL_STORAGE_VOICE_KEY storage) =
   selectedVoice st) ->
  saved (render prev (st, storage)).
Proof.
  unfold saved, initialState. cbn [fst snd text selectedVoice].
  intros Ht Hv.
  pose proof (render_spec prev st storage) as H. cbv zeta in H.
  destruct (render prev (st, storage)) as [st' storage'].
  destruct H as (-> & Ht' & Hv' & _). cbn [fst snd].
  rewrite Ht', Hv'.
  destruct (String.eqb_spec (text prev) (text st)) as [Het|Het];
    destruct (String.eqb_spec (selectedVoice prev) (selectedVoice st)) as [Hev|Hev];
    cbn [negb orb]; state_fields; cbn [default from_option id];
    auto.
Qed.

Lemma saved_mount (storage : Storage) : saved (mount storage).
Proof.
  unfold saved, mount, saveVoice, saveText, initialState.
  cbn [fst snd text selectedVoice setAudioData].
  rewrite !setItem_getItem.
  repeat destruct (decide _); try discriminate; try congruence.
  split; reflexivity.
Qed.

Lemma saved_dispatch (a : action) (w : State * Storage) :
  saved w -> saved (snd (dispatch env a w)).
Proof.
  destruct w as [st storage]. intros Hw. pose proof Hw as [Ht Hv].
  unfold initialState in Ht, Hv. cbn [fst snd text selectedVoice] in Ht, Hv.
  destruct a as [value|value| | |]; cbn [dispatch].
  - destruct (isLoading st); [exact Hw |]. cbn [snd].
    apply saved_render; state_fields; congruence.
  - destruct (isLoading st); [exact Hw |]. cbn [snd].
    apply saved_render; state_fields; congruence.
  - destruct (isLoading st || _); [exact Hw |].
    destruct (handleSpeak_text st) as [Ht' Hv'].
    destruct (handleSpeak env st) as [done st']. cbn [snd] in *.
    rewrite render_same by assumption.
    unfold saved, initialState. cbn [fst snd text selectedVoice].
    rewrite Ht', Hv'. exact (conj Ht Hv).
  - destruct (isLoading st || _); [exact Hw |].
    destruct (handleDownload_text st) as [Ht' Hv'].
    destruct (handleDownload st) as [done st']. cbn [snd] in *.
    rewrite render_same by assumption.
    unfold saved, initialState. cbn [fst snd text selectedVoice].
    rewrite Ht', Hv'. exact (conj Ht Hv).
  - destruct (isLoading st); [exact Hw |]. cbn [snd handleReset].
    apply saved_render; state_fields; intros _;
      rewrite !removeItem_getItem; repeat destruct (decide _);
      try discriminate; try congruence; reflexivity.
Qed.

(** X17. The text and the voice are saved. After the component is mounted
    on any storage and the user has acted in any way, the storage is such
    that a reload starts with the text and the voice now on the screen. *)
Theorem reload_restores (storage0 : Storage) (actions : list action) :
  let (st, storage) := snd (run env actions (mount storage0)) in
  text (initialState storage) = text st /\
  selectedVoice (initialState storage) = selectedVoice st.
Proof.
  assert (H : forall w, saved w -> saved (snd (run env actions w))).
  { induction actions as [|a rest IH]; intros w Hw; [exact Hw |].
    cbn [run]. pose proof (saved_dispatch a w Hw) as Hd.
    destruct (dispatch env a w) as [done w']. cbn [snd] in Hd.
    specialize (IH w' Hd). destruct (run env rest w') as [done' w''].
    exact IH. }
  specialize (H _ (saved_mount storage0)).
  destruct (snd (run env actions (mount storage0))) as [st storage].
  exact H.
Qed.

(** X18. Reset. A click on the reset button (enabled when the component is
    not loading) sets the default text and the first voice, Kore, clears the
    error and the audio and notifies the user; it calls nothing outside. In
    the storage it leaves a key removed only when its value was the default
    already: otherwise the effect that saves the value writes the default
    back. Either way a reload starts with the defaults. *)
Theorem reset_to_defaults (st : State) (storage : Storage) :
  isLoading st = false ->
  let (done, w) := dispatch env ClickReset (st, storage) in
  let (st', storage') := w in
  done = [] /\
  text st' = DEFAULT_TEXT /\ selectedVoice st' = "Kore" /\
  error st' = None /\ audioData st' = None /\
  notification st' = Some "Settings have been reset to default." /\
  isLoading st' = false /\ audioContextRef st' = audioContextRef st /\
  getItem LOCAL_STORAGE_TEXT_KEY storage' =
    (if String.eqb (text st) DEFAULT_TEXT then None else Some DEFAULT_TEXT) /\
  getItem LOCAL_STORAGE_VOICE_KEY storage' =
    (if String.eqb (selectedVoice st) "Kore" then None else Some "Kore") /\
  text (initialState storage') = DEFAULT_TEXT /\
  selectedVoice (initialState storage') = "Kore".
Proof.
  intros Hload. cbn [dispatch]. rewrite Hload. cbn [handleReset].
  match goal with
  | |- context [render st (?s, ?l)] =>
      pose proof (render_spec st s l) as H; cbv zeta in H;
      destruct (render st (s, l)) as [st' storage']
  end.
  state_fields. destruct H as (-> & Ht & Hv & _).
  rewrite !removeItem_getItem in Ht, Hv.
  repeat (destruct (decide _) as [?|?] in Ht, Hv; try discriminate; try congruence).
  unfold initialState. cbn [text selectedVoice]. rewrite Ht, Hv.
  split; [reflexivity |].
  destruct (String.eqb (text st) DEFAULT_TEXT);
    destruct (String.eqb (selectedVoice st) first_voice_id) eqn:E;
    change first_voice_id with "Kore" in E |- *; rewrite ?E;
    cbn [negb orb]; state_fields; repeat split; try reflexivity; exact Hload.
Qed.

(** X19. Editing. A change of the text to another value (the component not
    loading) drops the audio kept for download and saves the new text under
    its key, leaving every other key alone; a change to the same value
    changes nothing, the audio included. The same holds of the voice. *)
Theorem edit_invalidates_audio (st : State) (storage : Storage) (value : string) :
  isLoading st = false ->
  (let w := snd (dispatch env (ChangeText value) (st, storage)) in
   if String.eqb (text st) value then w = (st, storage)
   else fst w = setAudioData None (setText value st) /\
        getItem LOCAL_STORAGE_TEXT_KEY (snd w) = Some value /\
        forall key, key <> LOCAL_STORAGE_TEXT_KEY ->
                    getItem key (snd w) = getItem key storage) /\
  (let w := snd (dispatch env (ChangeVoice value) (st, storage)) in
   if String.eqb (selectedVoice st) value then w = (st, storage)
   else fst w = setAudioData None (setSelectedVoice value st) /\
        getItem LOCAL_STORAGE_VOICE_KEY (snd w) = Some value /\
        forall key, key <> LOCAL_STORAGE_VOICE_KEY ->
                    getItem key (snd w) = getItem key storage).
Proof.
  intros Hload. cbn [dispatch]. rewrite Hload. cbn [snd]. split.
  - destruct (String.eqb_spec (text st) value) as [<-|Hne].
    + rewrite render_same; [| reflexivity | reflexivity].
      now destruct st.
    + pose proof (render_spec st (setText value st) storage) as H.
      cbv zeta in H. destruct (render st (setText value st, storage)) as [st' l].
      state_fields. rewrite String.eqb_refl in H.
      destruct (String.eqb_spec (text st) value); [contradiction |].
      destruct H as (-> & Ht & Hv & Hrest). cbn [fst snd negb orb].
      split; [reflexivity |]. split; [exact Ht |].
      intros key Hkey.
      destruct (decide (key = LOCAL_STORAGE_VOICE_KEY)) as [->|Hk]; auto.
  - destruct (String.eqb_spec (selectedVoice st) value) as [<-|Hne].
    + rewrite render_same; [| reflexivity | reflexivity].
      now destruct st.
    + pose proof (render_spec st (setSelectedVoice value st) storage) as H.
      cbv zeta in H.
      destruct (render st (setSelectedVoice value st, storage)) as [st' l].
      state_fields. rewrite String.eqb_refl in H.
      destruct (String.eqb_spec (selectedVoice st) value); [contradiction |].
      destruct H as (-> & Ht & Hv & Hrest). cbn [fst snd negb orb].
      split; [reflexivity |]. split; [exact Hv |].
      intros key Hkey.
      destruct (decide (key = LOCAL_STORAGE_TEXT_KEY)) as [->|Hk]; auto.
Qed.

Lemma filter_new_context_Call (l : list event) :
  List.filter is_new_context (map Call l) = [].
Proof. induction l as [|e l IH]; [reflexivity | exact IH]. Qed.

Lemma render_ref (prev st : State) (storage : Storage) :
  audioContextRef (fst (render prev (st, storage))) = audioContextRef st.
Proof.
  pose proof (render_spec prev st storage) as H. cbv zeta in H.
  destruct (render prev (st, storage)) as [st' storage'].
  destruct H as [-> _]. cbn [fst]. now destruct (_ || _).
Qed.

(** What a run of [handleSpeak] does about the context. *)
Lemma handleSpeak_context (st : State) :
  let done := List.filter is_new_context (fst (handleSpeak env st)) in
  let st' := snd (handleSpeak env st) in
  match audioContextRef st with
  | Some ctx => done = [] /\ audioContextRef st' <> None
  | None =>
      (done = [] /\ audioContextRef st' = None) \/
      (done = [NewAudioContext 24000] /\
       audioContextRef st' = match newAudioContext env with
                             | Ok ctx => Some (awake ctx)
                             | Throw _ => None
                             end)
  end.
Proof.
  cbv zeta.
  destruct (forallb is_white_space (list_ascii_of_string (text st))) eqn:Hblank;
    [rewrite handleSpeak_guard by auto;
     destruct (audioContextRef st) eqn:E; cbn [fst snd List.filter];
     [split; [reflexivity | congruence] | auto] |].
  destruct (isLoading st) eqn:Hload;
    [rewrite handleSpeak_guard by auto;
     destruct (audioContextRef st) eqn:E; cbn [fst snd List.filter];
     [split; [reflexivity | congruence] | auto] |].
  rewrite handleSpeak_eq by assumption. cbv zeta. unfold speaking_context.
  destruct (audioContextRef st) as [ctx|] eqn:Href.
  - state_fields.
    destruct (generateSpeech _ _ _ _) as [requested [base64Audio|err]];
      [destruct (playAudio _ _) as [played [[]|err]] |];
      cbn [fst snd]; state_fields; cbn [app];
      rewrite <- ?map_app, filter_new_context_Call;
      (split; [reflexivity | discriminate]).
  - right. destruct (newAudioContext env) as [ctx|e].
    + state_fields.
      destruct (generateSpeech _ _ _ _) as [requested [base64Audio|err]];
        [destruct (playAudio _ _) as [played [[]|err]] |];
        cbn [fst snd]; state_fields; cbn [app List.filter is_new_context];
        rewrite <- ?map_app, filter_new_context_Call;
        (split; reflexivity).
    + cbn [fst snd]. state_fields. split; [reflexivity | exact Href].
Qed.

Lemma dispatch_context (a : action) (w : State * Storage) :
  let done := List.filter is_new_context (fst (dispatch env a w)) in
  let st' := fst (snd (dispatch env a w)) in
  match audioContextRef (fst w) with
  | Some ctx => done = [] /\ audioContextRef st' <> None
  | None =>
      (done = [] /\ audioContextRef st' = None) \/
      (done = [NewAudioContext 24000] /\
       audioContextRef st' = match newAudioContext env with
                             | Ok ctx => Some (awake ctx)
                             | Throw _ => None
                             end)
  end.
Proof.
  cbv zeta. destruct w as [st storage]. cbn [fst].
  assert (Hidle : match audioContextRef st with
                  | Some _ => @nil effect = [] /\ audioContextRef st <> None
                  | None =>
                      (@nil effect = [] /\ audioContextRef st = None) \/
                      (@nil effect = [NewAudioContext 24000] /\
                       audioContextRef st = match newAudioContext env with
                                            | Ok ctx => Some (awake ctx)
                                            | Throw _ => None
                                            end)
                  end).
  { destruct (audioContextRef st); [split; [reflexivity | discriminate] | auto]. }
  destruct a as [value|value| | |]; cbn [dispatch].
  - destruct (isLoading st); [exact Hidle |].
    cbn [fst snd List.filter]. now rewrite render_ref.
  - destruct (isLoading st); [exact Hidle |].
    cbn [fst snd List.filter]. now rewrite render_ref.
  - destruct (isLoading st || _); [exact Hidle |].
    pose proof (handleSpeak_context st) as H. cbv zeta in H.
    destruct (handleSpeak env st) as [done st']. cbn [fst snd] in *.
    now rewrite render_ref.
  - destruct (isLoading st || _); [exact Hidle |].
    unfold handleDownload.
    destruct (negb (truthy (audioData st)));
      [|destruct (createWavBlobFromBase64 _)];
      cbn [fst snd List.filter is_new_context]; rewrite render_ref;
      exact Hidle.
  - destruct (isLoading st); [exact Hidle |].
    cbn [fst snd List.filter handleReset]. now rewrite render_ref.
Qed.

(** X20. One audio context. In a browser whose constructor gives a context,
    a session, from any state, constructs at most one; from a state that
    keeps a context already it constructs none, and the context is never
    dropped. *)
Theorem context_created_once (ctx : AudioContext) (actions : list action)
    (w : State * Storage) :
  newAudioContext env = Ok ctx ->
  let (done, w') := run env actions w in
  (length (List.filter is_new_context done) <= 1)%nat /\
  (audioContextRef (fst w) <> None ->
   List.filter is_new_context done = [] /\ audioContextRef (fst w') <> None).
Proof.
  intros Hnew. revert w. induction actions as [|a rest IH]; intros w.
  - cbn. split; [lia | auto].
  - cbn [run]. pose proof (dispatch_context a w) as Hd. cbv zeta in Hd.
    destruct (dispatch env a w) as [done w1]. cbn [fst snd] in Hd.
    specialize (IH w1). destruct (run env rest w1) as [done' w2].
    destruct IH as [Hle Hkept]. rewrite List.filter_app, length_app.
    rewrite Hnew in Hd.
    destruct (audioContextRef (fst w)) as [c|].
    + destruct Hd as [-> Hsome]. destruct (Hkept Hsome) as [-> Hsome'].
      split; [cbn; lia |]. intros _. split; [reflexivity | exact Hsome'].
    + split; [|congruence].
      destruct Hd as [[-> _] | [-> Hsome]]; [cbn; lia |].
      destruct Hkept as [-> _]; [congruence | cbn; lia].
Qed.

Lemma base64Encode_nonempty (x : list byte) :
  x <> [] -> String.eqb (base64Encode x) EmptyString = false.
Proof.
  intros Hx. destruct (String.eqb_spec (base64Encode x) EmptyString) as [E|];
    [|reflexivity].
  pose proof (decode_encoded x) as Hd. rewrite E in Hd.
  change (decode EmptyString) with (Ok (@nil byte)) in Hd. congruence.
Qed.

(** X21. Speak, then download. When the service answers a click on Speak
    with the base64 encoding of a non-empty byte string [x], a click on
    Download afterwards offers the canonical header for the length of [x]
    followed by [x], whether playback succeeded or not; the download
    notifies the user, leaves the error of the run as it was and does not
    touch the storage. *)
Theorem download_after_speak (st : State) (storage : Storage)
    (ctx : AudioContext) (response : GenerateContentResponse) (x : list byte) :
  forallb is_white_space (list_ascii_of_string (text st)) = false ->
  isLoading st = false ->
  speaking_context env st = Ok ctx ->
  truthy (API_KEY env) = true ->
  generateContent env (speech_request (text st) (selectedVoice st)) = Ok response ->
  inline_audio response = Some (base64Encode x) ->
  x <> [] ->
  let (spoken, w1) := dispatch env ClickSpeak (st, storage) in
  let (downloaded, w2) := dispatch env ClickDownload w1 in
  let wavBlob := {| blob_bytes := wav_header (Z.of_nat (length x)) ++ x;
                    blob_type := "audio/wav" |} in
  audioData (fst w1) = Some (base64Encode x) /\
  downloaded =
    [CreateObjectURL wavBlob; CreateElement "a"; SetHref (ObjectURL wavBlob);
     SetDownload "gemini-speech.wav"; AppendChild; Click; RemoveChild;
     RevokeObjectURL (ObjectURL wavBlob)] /\
  notification (fst w2) = Some "Download started." /\
  error (fst w2) = error (fst w1) /\
  snd w2 = storage.
Proof.
  intros Hblank Hload Hctx Hkey Hanswer Haudio Hx.
  assert (Hspoken : outcome (generateSpeech (API_KEY env) (generateContent env)
                               (text st) (selectedVoice st)) =
                    Ok (base64Encode x)).
  { destruct (API_KEY env) as [key|]; [|discriminate].
    apply truthy_Some in Hkey as (k & [= <-] & Hk).
    rewrite (generateSpeech_with_key _ _ _ key Hk). unfold outcome. cbn [snd].
    rewrite Hanswer, Haudio. cbn [truthy default from_option id].
    now rewrite base64Encode_nonempty. }
  cbn [dispatch]. rewrite Hload, trim_blank, Hblank. cbn [orb].
  assert (Hst : let st1 := snd (handleSpeak env st) in
                text st1 = text st /\ selectedVoice st1 = selectedVoice st /\
                isLoading st1 = false /\
                audioData st1 = Some (base64Encode x)).
  { rewrite handleSpeak_eq by assumption. rewrite Hctx. cbv zeta. state_fields.
    unfold outcome in Hspoken.
    destruct (generateSpeech _ _ _ _) as [requested result].
    cbn [snd] in Hspoken. subst result.
    destruct (playAudio _ _) as [played [[]|err]];
      cbn [snd]; state_fields; repeat split; reflexivity. }
  cbv zeta in Hst.
  destruct (handleSpeak env st) as [spoken st1]. cbn [snd] in Hst.
  destruct Hst as (Ht & Hv & Hl & Ha).
  rewrite render_same by assumption.
  cbn [dispatch]. rewrite Hl, Ha. cbn [truthy].
  rewrite base64Encode_nonempty by assumption. cbn [negb orb].
  unfold handleDownload. rewrite Ha. cbn [truthy default from_option id].
  rewrite base64Encode_nonempty by assumption. cbn [negb].
  rewrite createWavBlobFromBase64_encoded. unfold new_Blob.
  cbn [concat]. rewrite app_nil_r.
  rewrite render_same by reflexivity. cbn [fst snd]. state_fields.
  repeat split; assumption || reflexivity.
Qed.

End Component.

Lemma handleSpeak_state_witness :
  let st' := snd (App.handleSpeak demo_env demo_state) in
  App.text st' = App.text demo_state /\
  App.selectedVoice st' = App.selectedVoice demo_state /\
  App.isLoading st' = false /\ App.notification st' = None /\
  App.audioContextRef st' = Some (awake (browser_context suspended)) /\
  App.audioData st' =
    match outcome (generateSpeech (App.API_KEY demo_env)
                     (App.generateContent demo_env)
                     (App.text demo_state) (App.selectedVoice demo_state)) with
    | Ok base64Audio => Some base64Audio
    | Throw _ => None
    end.
Proof.
  exact (handleSpeak_state demo_env demo_state (browser_context suspended)
           eq_refl eq_refl eq_refl).
Defined.

Lemma handleSpeak_error_witness :
  let (done, st') := App.handleSpeak demo_env demo_state in
  (App.error st' = None <-> In (Call Start) done) /\
  match outcome (generateSpeech (App.API_KEY demo_env)
                   (App.generateContent demo_env)
                   (App.text demo_state) (App.selectedVoice demo_state)) with
  | Throw err => App.error st' = Some (App.message demo_env err)
  | Ok base64Audio =>
      match outcome (playAudio base64Audio
                       (Some (awake (browser_context suspended)))) with
      | Throw err => App.error st' = Some (App.message demo_env err)
      | Ok _ => App.error st' = None
      end
  end.
Proof.
  exact (handleSpeak_error demo_env demo_state (browser_context suspended)
           eq_refl eq_refl eq_refl).
Defined.

Lemma reset_to_defaults_witness :
  let (done, w) := App.dispatch demo_env App.ClickReset (demo_state, ∅) in
  let (st', storage') := w in
  done = [] /\
  App.text st' = App.DEFAULT_TEXT /\ App.selectedVoice st' = "Kore"%string /\
  App.error st' = None /\ App.audioData st' = None /\
  App.notification st' = Some "Settings have been reset to default."%string /\
  App.isLoading st' = false /\
  App.audioContextRef st' = App.audioContextRef demo_state /\
  getItem App.LOCAL_STORAGE_TEXT_KEY storage' =
    (if String.eqb (App.text demo_state) App.DEFAULT_TEXT
     then None else Some App.DEFAULT_TEXT) /\
  getItem App.LOCAL_STORAGE_VOICE_KEY storage' =
    (if String.eqb (App.selectedVoice demo_state) "Kore"
     then None else Some "Kore"%string) /\
  App.text (App.initialState storage') = App.DEFAULT_TEXT /\
  App.selectedVoice (App.initialState storage') = "Kore"%string.
Proof.
  exact (reset_to_defaults demo_env demo_state ∅ eq_refl).
Defined.

Lemma edit_invalidates_audio_witness :
  App.audioData
    (fst (snd (App.dispatch demo_env (App.ChangeText "Good evening")
                 (demo_state, ∅)))) = None.
Proof.
  pose proof (proj1 (edit_invalidates_audio demo_env demo_state ∅
                       "Good evening"%string eq_refl)) as H.
  cbv zeta in H.
  change (String.eqb (App.text demo_state) "Good evening") with false in H.
  cbv iota in H. now rewrite (proj1 H).
Defined.

Lemma context_created_once_witness :
  let (done, w') := App.run demo_env [App.ClickSpeak; App.ClickSpeak]
                      (demo_state, ∅) in
  (length (List.filter is_new_context done) <= 1)%nat /\
  (App.audioContextRef (fst (demo_state, (∅ : Storage))) <> None ->
   List.filter is_new_context done = [] /\ App.audioContextRef (fst w') <> None).
Proof.
  exact (context_created_once demo_env (browser_context suspended)
           [App.ClickSpeak; App.ClickSpeak] (demo_state, ∅) eq_refl).
Defined.

Lemma download_after_speak_witness :
  let (spoken, w1) := App.dispatch demo_env App.ClickSpeak (demo_state, ∅) in
  let (downloaded, w2) := App.dispatch demo_env App.ClickDownload w1 in
  let wavBlob :=
    {| blob_bytes := wav_header (Z.of_nat (length [x00; x80; xff; x7f])) ++
                     [x00; x80; xff; x7f];
       blob_type := "audio/wav" |} in
  App.audioData (fst w1) = Some (base64Encode [x00; x80; xff; x7f]) /\
  downloaded =
    [CreateObjectURL wavBlob; CreateElement "a"; SetHref (ObjectURL wavBlob);
     SetDownload "gemini-speech.wav"; AppendChild; Click; RemoveChild;
     RevokeObjectURL (ObjectURL wavBlob)] /\
  App.notification (fst w2) = Some "Download started."%string /\
  App.error (fst w2) = App.error (fst w1) /\
  snd w2 = ∅.
Proof.
  exact (download_after_speak demo_env demo_state ∅ (browser_context suspended)
           (audio_response "AID/fw==") [x00; x80; xff; x7f]
           eq_refl eq_refl eq_refl eq_refl eq_refl eq_refl ltac:(discriminate)).
Defined.

